(** * Upload coordinator of the RAG knowledge app front end

    A shallow embedding of [frontend/src/components/UploadArea.tsx]: the
    chunk arithmetic of [handleUpload], the requests it posts, the status
    updates it makes, and the WebSocket [onmessage] handler.

    Modelling conventions.
    - JavaScript numbers that hold byte counts and loop indices are integers
      below 2^53, on which binary64 arithmetic is exact; they are embedded
      in [Z].  The quotient [file.size / CHUNK_SIZE] is rounded, but for
      such sizes never as far as the next integer, so [Math.ceil] of it is
      the ceiling of the exact quotient.  The progress,
      [Math.round(((i + 1) / totalChunks) * 100)], is embedded with the
      kernel's binary64 numbers, so that its rounding is the program's.
    - [await axios.post(...)] either resolves with a response body or throws;
      the server is an oracle giving the outcome of each call.
    - A React state setter is an effect; a handler is embedded as the list
      of effects it performs, in program order, and [run] replays them on
      the component state. *)

From Stdlib Require Import ZArith List String Ascii Bool Lia DecimalString.
From Stdlib Require Import Floats.PrimFloat Floats.SpecFloat Floats.FloatOps.
Import ListNotations.
Open Scope string_scope.
Open Scope Z_scope.

(** ** JavaScript primitives used by the component *)

Module JS.

(** [String(n)] for an integer [n]. *)
Definition String_of (n : Z) : string := NilZero.string_of_int (Z.to_int n).

(** Truthiness of an optional string field: [undefined] and [''] are falsy. *)
Definition truthy (v : option string) : bool :=
  match v with
  | Some EmptyString => false
  | Some _ => true
  | None => false
  end.

(** [v || d] where [v] is an optional string field and [d] a string. *)
Definition or_else (v : option string) (d : string) : string :=
  match v with
  | Some EmptyString => d
  | Some s => s
  | None => d
  end.

(** [s || d] on two strings. *)
Definition or_str (s d : string) : string :=
  match s with
  | EmptyString => d
  | _ => s
  end.

(** Interpolation of a field inside a template literal. *)
Definition interpolate (v : option string) : string :=
  match v with
  | Some s => s
  | None => "undefined"
  end.

(** [Math.ceil(a / b)] for integers [a >= 0], [b > 0]. *)
Definition Math_ceil_div (a b : Z) : Z :=
  if a mod b =? 0 then a / b else a / b + 1.

(** The binary64 value of an integer (exact below 2^53). *)
Fixpoint float_of_pos (p : positive) : float :=
  match p with
  | xH => 1%float
  | xO q => (2 * float_of_pos q)%float
  | xI q => (2 * float_of_pos q + 1)%float
  end.

Definition float_of_Z (z : Z) : float :=
  match z with
  | Z0 => 0%float
  | Zpos p => float_of_pos p
  | Zneg p => (- float_of_pos p)%float
  end.

(** [Math.round(x)]: the integer nearest to [x], ties towards +infinity,
    that is floor(x + 1/2) computed exactly from mantissa and exponent.
    Not-a-number and the infinities do not occur in the component (the
    divisor is a positive chunk count); they are sent to 0 here. *)
Definition Math_round (x : float) : Z :=
  match Prim2SF x with
  | S754_finite s m e =>
      let twice := Z.shiftl (2 * (if s then Z.neg m else Z.pos m)) e in
      (twice + 1) / 2
  | _ => 0
  end.

End JS.

(** ** Data of the component *)

(** [const CHUNK_SIZE = 5 * 1024 * 1024] *)
Definition CHUNK_SIZE : Z := 5 * 1024 * 1024.

(** The [status] field of [UploadStatus]. *)
Inductive Lifecycle : Type :=
| idle | uploading | assembling | completed | error.

(** [interface UploadStatus] *)
Record UploadStatus : Type := mkStatus {
  progress : Z;
  status : Lifecycle;
  message : option string
}.

(** A browser [File]: its name and its size in bytes. *)
Record File : Type := mkFile {
  name : string;
  size : Z
}.

(** A value appended to a [FormData]: the file itself, the blob
    [file.slice(start, end)], or a string. *)
Inductive FormValue : Type :=
| WholeFile (f : File)
| Slice (f : File) (start stop : Z)
| Text (s : string).

(** A [FormData] is the ordered list of the entries appended to it. *)
Definition FormData : Type := list (string * FormValue).

(** [formData.get(key)]: the first entry of that name. *)
Fixpoint form_get (key : string) (form : FormData) : option FormValue :=
  match form with
  | [] => None
  | (k, v) :: rest => if String.eqb k key then Some v else form_get key rest
  end.

(** An [axios.post(url, body, ...)] call. *)
Record Request : Type := mkRequest {
  url : string;
  body : FormData
}.

(** Outcome of an awaited [axios.post]: it resolves with a body, of which
    the component reads one identifier field ([res.data.id] on the
    whole-file endpoint, [res.data.document_id] on the chunked one), or it
    throws an error whose [response.data.detail] may be present, or it
    resolves with a body on which reading the field throws (the JSON value
    [null]): the statements before the read have run, and the [catch] then
    finds no detail on the error. *)
Inductive Response : Type :=
| Resolved (identifier : option string)
| Rejected (detail : option string)
| Unreadable.

(** The parsed payload of a WebSocket message: [JSON.parse] throws, or
    yields an object of which the handler reads three fields. *)
Record Payload : Type := mkPayload {
  event : option string;
  filename : option string;
  document_id : option string
}.

Inductive WsMessage : Type :=
| Unparsable
| Parsed (data : Payload).

(** The [useState] cells of the component; the cell [status] of the
    source is the field [upload] here, [status] being the projection of
    [UploadStatus]. *)
Record Component : Type := mkComponent {
  file : option File;
  upload : UploadStatus;
  uploadedDocId : option string;
  processingMsg : option string
}.

(** What a handler does, in program order. *)
Inductive Effect : Type :=
| Post (r : Request)
| SetFile (f : File)
| SetStatus (s : UploadStatus)
| SetUploadedDocId (d : option string)
| SetProcessingMsg (m : string)
| ToastSuccess (m : string).

Definition step (c : Component) (e : Effect) : Component :=
  match e with
  | Post _ => c
  | SetFile f =>
      mkComponent (Some f) (upload c) (uploadedDocId c) (processingMsg c)
  | SetStatus s =>
      mkComponent (file c) s (uploadedDocId c) (processingMsg c)
  | SetUploadedDocId d =>
      mkComponent (file c) (upload c) d (processingMsg c)
  | SetProcessingMsg m =>
      mkComponent (file c) (upload c) (uploadedDocId c) (Some m)
  | ToastSuccess _ => c
  end.

Definition run (c : Component) (log : list Effect) : Component :=
  fold_left step log c.

(** The requests of a log, in the order they were posted. *)
Fixpoint requests (log : list Effect) : list Request :=
  match log with
  | [] => []
  | Post r :: rest => r :: requests rest
  | _ :: rest => requests rest
  end.

(** The successive values given to [setStatus] in a log. *)
Fixpoint statuses (log : list Effect) : list UploadStatus :=
  match log with
  | [] => []
  | SetStatus s :: rest => s :: statuses rest
  | _ :: rest => statuses rest
  end.

(** The component as first rendered. *)
Definition initial : Component :=
  mkComponent None (mkStatus 0 idle None) None None.

(** ** The chunk arithmetic of [handleUpload] *)

(** [Math.ceil(file.size / CHUNK_SIZE)] *)
Definition totalChunksOf (fileSize chunkSize : Z) : Z :=
  JS.Math_ceil_div fileSize chunkSize.

(** [const start = i * CHUNK_SIZE] *)
Definition chunkStart (chunkSize i : Z) : Z := i * chunkSize.

(** [const end = Math.min(start + CHUNK_SIZE, file.size)] *)
Definition chunkEnd (fileSize chunkSize i : Z) : Z :=
  Z.min (chunkStart chunkSize i + chunkSize) fileSize.

(** The loop header [for (let i = 0; i < totalChunks; i++)] visits
    [i], [i + 1], ... for as many rounds as are left; [rangesFrom] collects
    the pair [(start, end)] computed in each round. *)
Fixpoint rangesFrom (fileSize chunkSize : Z) (rounds : nat) (i : Z)
  : list (Z * Z) :=
  match rounds with
  | O => []
  | S rounds' =>
      (chunkStart chunkSize i, chunkEnd fileSize chunkSize i)
        :: rangesFrom fileSize chunkSize rounds' (i + 1)
  end.

(** The byte ranges sliced by the loop for a file of [fileSize] bytes. *)
Definition chunkRanges (fileSize chunkSize : Z) : list (Z * Z) :=
  rangesFrom fileSize chunkSize
    (Z.to_nat (totalChunksOf fileSize chunkSize)) 0.

(** [Math.round(((i + 1) / totalChunks) * 100)] *)
Definition chunkProgress (i totalChunks : Z) : Z :=
  JS.Math_round
    ((JS.float_of_Z (i + 1) / JS.float_of_Z totalChunks) * 100)%float.

(** ** The handlers *)

Definition quote : string := String (ascii_of_nat 34) EmptyString.

(** [socket.onmessage]: a payload whose [event] is ['processing_complete']
    records the notice, marks the upload completed (the updater keeps the
    other fields of the current status) and raises a toast; anything else,
    and any exception, is swallowed. *)
Definition onmessage (msg : WsMessage) (c : Component) : list Effect :=
  match msg with
  | Unparsable => []
  | Parsed data =>
      match event data with
      | Some ev =>
          if String.eqb ev "processing_complete" then
            [ SetProcessingMsg
                ("Document " ++ quote ++ JS.interpolate (filename data)
                 ++ quote ++ " (ID: " ++ JS.interpolate (document_id data)
                 ++ ") has finished processing and is ready!");
              SetStatus (mkStatus (progress (upload c)) completed
                           (Some "Processing complete!"));
              ToastSuccess
                ("Document " ++ quote ++ JS.interpolate (filename data)
                 ++ quote ++ " is ready!") ]
          else []
      | None => []
      end
  end.

(** [handleFileChange]: [files] is the input's file list (empty when the
    list is missing or has no first element). *)
Definition handleFileChange (files : list File) : list Effect :=
  match files with
  | f :: _ =>
      [ SetFile f; SetStatus (mkStatus 0 idle None); SetUploadedDocId None ]
  | [] => []
  end.

Section Upload.

(** [clientId] is the identifier drawn when the component is created;
    [whole] is the outcome of the whole-file call and [chunked i] the
    outcome of the call that carries chunk [i]. *)
Variable clientId : string.
Variable whole : Response.
Variable chunked : Z -> Response.

(** The [FormData] built for the whole-file call. *)
Definition wholeForm (f : File) : FormData :=
  [ ("file", WholeFile f); ("client_id", Text clientId) ].

(** The [chunkForm] built in round [i] of the loop. *)
Definition chunkForm (f : File) (totalChunks i : Z) (documentId : string)
  : FormData :=
  ([ ("file_chunk",
     Slice f (chunkStart CHUNK_SIZE i) (chunkEnd (size f) CHUNK_SIZE i));
    ("document_id", Text (JS.or_str documentId "new"));
    ("chunk_index", Text (JS.String_of i));
    ("total_chunks", Text (JS.String_of totalChunks));
    ("filename", Text (name f)) ]
  ++ (if i =? 0 then [ ("client_id", Text clientId) ] else []))%list.

Definition chunkRequest (f : File) (totalChunks i : Z) (documentId : string)
  : Request :=
  mkRequest "/api/v1/documents/upload-chunked"
            (chunkForm f totalChunks i documentId).

(** The status set when chunk [i] has been acknowledged. *)
Definition chunkUploaded (i totalChunks : Z) : UploadStatus :=
  mkStatus (chunkProgress i totalChunks) uploading
           (Some ("Chunk " ++ JS.String_of (i + 1) ++ " uploaded")).

Definition nowAssembling : UploadStatus :=
  mkStatus 100 assembling (Some "Assembling and processing...").

(** The status set in the [catch] of round [i]. *)
Definition chunkFailed (i totalChunks : Z) (detail : option string)
  : UploadStatus :=
  mkStatus (chunkProgress i totalChunks) error
           (Some (JS.or_else detail "Chunk upload failed.")).

Definition uploadComplete : UploadStatus :=
  mkStatus 100 completed (Some "Upload complete!").

(** The [for] loop of [handleUpload], from round [i] with [rounds] rounds
    left and the local [documentId]; it yields the effects of the rounds
    run and the value of [documentId] when the loop is left, by exhaustion
    or by [break].  An unreadable body throws at the first statement after
    the [await], before any status is set. *)
Fixpoint sendChunks (f : File) (totalChunks : Z) (rounds : nat) (i : Z)
    (documentId : string) : list Effect * string :=
  match rounds with
  | O => ([], documentId)
  | S rounds' =>
      let req := Post (chunkRequest f totalChunks i documentId) in
      match chunked i with
      | Resolved d =>
          let documentId' := JS.or_else d documentId in
          let here :=
            ([ req; SetStatus (chunkUploaded i totalChunks) ]
             ++ (if i =? totalChunks - 1
                 then [ SetStatus nowAssembling ] else []))%list in
          let (rest, final) :=
            sendChunks f totalChunks rounds' (i + 1) documentId' in
          ((here ++ rest)%list, final)
      | Rejected detail =>
          ([ req; SetStatus (chunkFailed i totalChunks detail) ], documentId)
      | Unreadable =>
          ([ req; SetStatus (chunkFailed i totalChunks None) ], documentId)
      end
  end.

(** The branch of [handleUpload] for a file of at most [CHUNK_SIZE] bytes.
    On an unreadable body [setStatus] has run when [res.data.id] throws,
    and [setUploadedDocId] has not. *)
Definition uploadDirectly (f : File) : list Effect :=
  Post (mkRequest "/api/v1/documents/upload" (wholeForm f))
  :: match whole with
     | Resolved id => [ SetStatus uploadComplete; SetUploadedDocId id ]
     | Rejected detail =>
         [ SetStatus (mkStatus 0 error
                        (Some (JS.or_else detail "Upload failed."))) ]
     | Unreadable =>
         [ SetStatus uploadComplete;
           SetStatus (mkStatus 0 error
                        (Some (JS.or_else None "Upload failed."))) ]
     end.

(** The branch of [handleUpload] for a larger file: the loop, then the two
    statements that follow it. *)
Definition uploadInChunks (f : File) : list Effect :=
  let totalChunks := totalChunksOf (size f) CHUNK_SIZE in
  let (log, documentId) :=
    sendChunks f totalChunks (Z.to_nat totalChunks) 0 EmptyString in
  (log ++ [ SetUploadedDocId (Some documentId); SetStatus uploadComplete ])%list.

(** [handleUpload], called on the component [c]. *)
Definition handleUpload (c : Component) : list Effect :=
  match file c with
  | None => []
  | Some f =>
      SetStatus (mkStatus 0 uploading None)
      :: (if size f <=? CHUNK_SIZE
          then uploadDirectly f
          else uploadInChunks f)
  end.

End Upload.

(** ** The loop, round by round *)

Section RoundsOfTheLoop.

Variable clientId : string.
Variable chunked : Z -> Response.
Variable f : File.
Variable totalChunks : Z.

(** [documentId = res.data.document_id || documentId] after an
    acknowledged call; a failed call leaves the variable alone. *)
Definition adopt (documentId : string) (r : Response) : string :=
  match r with
  | Resolved d => JS.or_else d documentId
  | Rejected _ => documentId
  | Unreadable => documentId
  end.

(** The local [documentId] when round [k] starts, the rounds before it
    having been acknowledged. *)
Fixpoint documentIdAt (k : nat) : string :=
  match k with
  | O => EmptyString
  | S j => adopt (documentIdAt j) (chunked (Z.of_nat j))
  end.

Definition acknowledgedAt (j : nat) : Prop :=
  exists d, chunked (Z.of_nat j) = Resolved d.

(** The effects of an acknowledged round [j]. *)
Definition acknowledgedRound (j : nat) : list Effect :=
  ([ Post (chunkRequest clientId f totalChunks (Z.of_nat j) (documentIdAt j));
     SetStatus (chunkUploaded (Z.of_nat j) totalChunks) ]
   ++ (if Z.of_nat j =? totalChunks - 1
       then [ SetStatus nowAssembling ] else []))%list.

(** The effects of a round [j] whose call throws. *)
Definition failedRound (j : nat) (detail : option string) : list Effect :=
  [ Post (chunkRequest clientId f totalChunks (Z.of_nat j) (documentIdAt j));
    SetStatus (chunkFailed (Z.of_nat j) totalChunks detail) ].

End RoundsOfTheLoop.

(** The most recent non-empty identifier among the answers to the chunks
    before [k], if any. *)
Fixpoint latestIdentifier (chunked : Z -> Response) (k : nat)
  : option string :=
  match k with
  | O => None
  | S j =>
      match chunked (Z.of_nat j) with
      | Resolved (Some d) =>
          if String.eqb d EmptyString then latestIdentifier chunked j else Some d
      | _ => latestIdentifier chunked j
      end
  end.

(** The rule as the specification words it, for comparison with [adopt]:
    the returned identifier is taken only while the local one is
    unassigned. *)
Definition adoptIfUnassigned (documentId : string) (r : Response) : string :=
  match documentId with
  | EmptyString => adopt EmptyString r
  | _ => documentId
  end.

(** ** Reading logs *)

(** The status first set after each call returns or throws. *)
Fixpoint reported (log : list Effect) : list UploadStatus :=
  match log with
  | [] => []
  | Post _ :: rest =>
      match rest with
      | SetStatus s :: _ => s :: reported rest
      | _ => reported rest
      end
  | _ :: rest => reported rest
  end.

Definition processingComplete (fname docId : option string) : WsMessage :=
  Parsed (mkPayload (Some "processing_complete") fname docId).

(** ** Scenarios *)

Definition MiB : Z := 1024 * 1024.

(** A 12 MiB file, selected in a freshly rendered component. *)
Definition report : File := mkFile "report.pdf" (12 * MiB).
Definition reportSelected : Component :=
  run initial (handleFileChange [ report ]).

(** A 3 MiB file, selected likewise. *)
Definition memo : File := mkFile "memo.txt" (3 * MiB).
Definition memoSelected : Component :=
  run initial (handleFileChange [ memo ]).

(** A server that acknowledges every chunk and names the document in its
    first answer only. *)
Definition namesOnce (i : Z) : Response :=
  if i =? 0 then Resolved (Some "doc-1") else Resolved None.

(** A server that names the document anew in its second answer. *)
Definition renames (i : Z) : Response :=
  if i =? 0 then Resolved (Some "doc-1")
  else if i =? 1 then Resolved (Some "doc-2")
  else Resolved None.

(** A server that refuses chunk [k] and acknowledges the others. *)
Definition refuses (k : Z) (detail : option string) (i : Z) : Response :=
  if i =? k then Rejected detail else Resolved (Some "doc-1").

(** The component while the second chunk of the 12 MiB upload is in
    flight: the first chunk has been acknowledged under the name
    ["doc-1"]. *)
Definition secondChunkInFlight : Component :=
  run reportSelected
      (firstn 4 (handleUpload "client-1" (Resolved None) namesOnce
                              reportSelected)).

(** ** What the component renders *)

(** The [disabled] attribute of the upload button:
    [status.status === 'uploading' || status.status === 'assembling']. *)
Definition uploadDisabled (s : UploadStatus) : bool :=
  match status s with
  | uploading => true
  | assembling => true
  | _ => false
  end.

(** The label of the upload button. *)
Definition uploadLabel (s : UploadStatus) : string :=
  match status s with
  | uploading => "Uploading..."
  | assembling => "Processing..."
  | _ => "Upload"
  end.

(** The line rendered by [{uploadedDocId && ...}], when there is one. *)
Definition uploadedLine (c : Component) : option string :=
  match uploadedDocId c with
  | Some EmptyString => None
  | Some d => Some ("Document uploaded! ID: " ++ d)
  | None => None
  end.

(** ** Slicing a file *)

Section Slicing.

Variable A : Type.

(** [blob.slice(start, end)] of the File API on the bytes of a blob: a
    negative bound counts from the end, both bounds are clamped to the
    blob, and an end before the start gives the empty blob. *)
Definition Blob_slice (bytes : list A) (start stop : Z) : list A :=
  let len := Z.of_nat (List.length bytes) in
  let relativeStart :=
    if start <? 0 then Z.max (len + start) 0 else Z.min start len in
  let relativeEnd :=
    if stop <? 0 then Z.max (len + stop) 0 else Z.min stop len in
  let span := Z.max (relativeEnd - relativeStart) 0 in
  firstn (Z.to_nat span) (skipn (Z.to_nat relativeStart) bytes).

(** The chunks cut from the bytes of a file by the loop of [handleUpload],
    in the order they are posted. *)
Definition chunksOf (bytes : list A) (chunkSize : Z) : list (list A) :=
  map (fun r => Blob_slice bytes (fst r) (snd r))
      (chunkRanges (Z.of_nat (List.length bytes)) chunkSize).

End Slicing.

(** ** Calls in flight *)

(** [postedWhileUploading s log]: replaying [log] from a status [s], every call is
    posted at a moment when the status is [uploading]. *)
Fixpoint postedWhileUploading (s : Lifecycle) (log : list Effect) : Prop :=
  match log with
  | [] => True
  | Post _ :: rest => s = uploading /\ postedWhileUploading s rest
  | SetStatus st :: rest => postedWhileUploading (status st) rest
  | _ :: rest => postedWhileUploading s rest
  end.

(** An effect that leaves the selected file and the processing notice
    alone. *)
Definition keepsSelection (e : Effect) : bool :=
  match e with
  | SetFile _ => false
  | SetProcessingMsg _ => false
  | _ => true
  end.

(** ** The progress values of an upload *)

(** The progress reported after chunk [i] of [n] is between 0 and 100
    (at least 1 up to 200 chunks), is not above the one reported after
    chunk [i + 1], and is 100 after the last chunk; below 200 chunks it is
    under 100 before the last chunk. *)
Definition progressSteadyAt (n i : nat) : bool :=
  let N := Z.of_nat n in
  let here := chunkProgress (Z.of_nat i) N in
  (0 <=? here) && (here <=? 100)
  && ((200 <? n)%nat || (1 <=? here))
  && (if (S i <? n)%nat
      then (here <=? chunkProgress (Z.of_nat (S i)) N)
           && ((200 <=? n)%nat || (here <? 100))
      else here =? 100).

(** [progressSteadyAt] for every chunk of every chunk count from 2 to
    [bound]. *)
Definition progressSteadyUpTo (bound : nat) : bool :=
  forallb (fun n => forallb (progressSteadyAt n) (seq 0 n))
          (seq 2 (bound - 1)).

(** * Properties *)

(** ** Facts about the chunk arithmetic *)

Section ChunkArithmetic.

Variables totalSize chunkSize : Z.
Hypothesis size_pos : 0 < totalSize.
Hypothesis chunk_pos : 0 < chunkSize.

(** [Math.ceil] of the quotient is the least count whose chunks cover the
    file. *)
Lemma totalChunksOf_ceiling :
  (totalChunksOf totalSize chunkSize - 1) * chunkSize < totalSize
  /\ totalSize <= totalChunksOf totalSize chunkSize * chunkSize.
Proof.
  unfold totalChunksOf, JS.Math_ceil_div.
  pose proof (Z.div_mod totalSize chunkSize ltac:(lia)) as Hdm.
  pose proof (Z.mod_pos_bound totalSize chunkSize chunk_pos) as Hb.
  destruct (totalSize mod chunkSize =? 0) eqn:E.
  - apply Z.eqb_eq in E. nia.
  - apply Z.eqb_neq in E. nia.
Qed.

Lemma totalChunksOf_pos : 0 < totalChunksOf totalSize chunkSize.
Proof.
  destruct totalChunksOf_ceiling as [_ H]. nia.
Qed.

End ChunkArithmetic.

Lemma rangesFrom_length (fileSize chunkSize : Z) (rounds : nat) (i : Z) :
  List.length (rangesFrom fileSize chunkSize rounds i) = rounds.
Proof.
  revert i. induction rounds as [|n IH]; intros i; simpl; auto.
Qed.

(** Round [k] of the loop slices the range of index [i + k]. *)
Lemma rangesFrom_nth (fileSize chunkSize : Z) (rounds : nat) (i : Z) (k : nat) :
  nth_error (rangesFrom fileSize chunkSize rounds i) k =
  if (k <? rounds)%nat
  then Some (chunkStart chunkSize (i + Z.of_nat k),
             chunkEnd fileSize chunkSize (i + Z.of_nat k))
  else None.
Proof.
  revert i k. induction rounds as [|n IH]; intros i k.
  - destruct k; reflexivity.
  - destruct k as [|k]; simpl rangesFrom; simpl nth_error.
    + replace (i + Z.of_nat 0) with i by lia. reflexivity.
    + rewrite IH. change (S k <? S n)%nat with (k <? n)%nat.
      replace (i + 1 + Z.of_nat k) with (i + Z.of_nat (S k)) by lia.
      reflexivity.
Qed.

Lemma chunkRanges_nth (fileSize chunkSize : Z) (k : nat) (a b : Z) :
  nth_error (chunkRanges fileSize chunkSize) k = Some (a, b) <->
  (Z.of_nat k < totalChunksOf fileSize chunkSize
   /\ a = chunkStart chunkSize (Z.of_nat k)
   /\ b = chunkEnd fileSize chunkSize (Z.of_nat k)).
Proof.
  unfold chunkRanges. rewrite rangesFrom_nth. simpl (0 + _).
  destruct (k <? Z.to_nat (totalChunksOf fileSize chunkSize))%nat eqn:E.
  - apply Nat.ltb_lt in E. split.
    + intros H. inversion H; subst. repeat split. lia.
    + intros (_ & -> & ->). reflexivity.
  - apply Nat.ltb_ge in E. split.
    + discriminate.
    + intros (H & _). lia.
Qed.

(** The progress is rounded as binary64 rounds it: after chunk 29 of 200
    the exact value is 14.5, the computed product is just below it, and the
    progress shown is 14. *)
Example chunkProgress_29_of_200 : chunkProgress 28 200 = 14.
Proof.
  reflexivity.
Qed.

(** ** The byte ranges of a chunked upload *)

(** C7. For a file of [totalSize > 0] bytes and a chunk size
    [chunkSize > 0], the ranges [(start, end)] computed by the loop of
    [handleUpload] number exactly ceil(totalSize / chunkSize) (the least
    [N] with [totalSize <= N * chunkSize]); each is non-empty, lies inside
    the file and spans at most [chunkSize] bytes; the first starts at 0,
    the last ends at [totalSize], each range starts where the previous
    one ends, and every byte offset of the file lies in exactly one range.
    [chunkRanges] is a function of the two sizes alone. *)
Theorem chunkRanges_partition (totalSize chunkSize : Z) :
  0 < totalSize -> 0 < chunkSize ->
  let N := totalChunksOf totalSize chunkSize in
  let rs := chunkRanges totalSize chunkSize in
  Z.of_nat (List.length rs) = N
  /\ ((N - 1) * chunkSize < totalSize /\ totalSize <= N * chunkSize)
  /\ (forall a b, In (a, b) rs ->
        0 <= a < b /\ b <= totalSize /\ b - a <= chunkSize)
  /\ (exists b, nth_error rs 0 = Some (0, b))
  /\ (exists a, nth_error rs (Z.to_nat (N - 1)) = Some (a, totalSize))
  /\ (forall k a b c d,
        nth_error rs k = Some (a, b) -> nth_error rs (S k) = Some (c, d) ->
        c = b)
  /\ (forall x, 0 <= x < totalSize ->
        exists k a b,
          nth_error rs k = Some (a, b) /\ a <= x < b
          /\ forall k' a' b',
               nth_error rs k' = Some (a', b') -> a' <= x < b' -> k' = k).
Proof.
  intros Hs Hc N rs.
  destruct (totalChunksOf_ceiling totalSize chunkSize Hc) as [Hlo Hhi].
  pose proof (totalChunksOf_pos totalSize chunkSize Hs Hc) as HN.
  fold N in Hlo, Hhi, HN.
  assert (Hnth : forall k a b,
             nth_error rs k = Some (a, b) <->
             (Z.of_nat k < N /\ a = Z.of_nat k * chunkSize
              /\ b = Z.min (Z.of_nat k * chunkSize + chunkSize) totalSize)).
  { intros k a b. unfold rs. rewrite chunkRanges_nth. reflexivity. }
  repeat split.
  - unfold rs, chunkRanges. rewrite rangesFrom_length. fold N. lia.
  - exact Hlo.
  - exact Hhi.
  - apply In_nth_error in H. destruct H as [k Hk].
    apply Hnth in Hk. nia.
  - apply In_nth_error in H. destruct H as [k Hk].
    apply Hnth in Hk. destruct Hk as (Hk & -> & ->). nia.
  - apply In_nth_error in H. destruct H as [k Hk].
    apply Hnth in Hk. destruct Hk as (Hk & -> & ->). nia.
  - apply In_nth_error in H. destruct H as [k Hk].
    apply Hnth in Hk. destruct Hk as (Hk & -> & ->). nia.
  - exists (Z.min chunkSize totalSize). apply Hnth. simpl. repeat split; lia.
  - exists ((N - 1) * chunkSize). apply Hnth.
    rewrite Z2Nat.id by lia. repeat split; lia.
  - intros k a b c d Hab Hcd. apply Hnth in Hab. apply Hnth in Hcd.
    destruct Hab as (Hk & -> & ->). destruct Hcd as (Hk' & -> & _).
    rewrite Nat2Z.inj_succ in *. nia.
  - intros x Hx.
    pose proof (Z.div_mod x chunkSize ltac:(lia)) as Hdm.
    pose proof (Z.mod_pos_bound x chunkSize Hc) as Hb.
    assert (Hq : 0 <= x / chunkSize) by (apply Z.div_pos; lia).
    exists (Z.to_nat (x / chunkSize)), (x / chunkSize * chunkSize),
      (Z.min (x / chunkSize * chunkSize + chunkSize) totalSize).
    split; [| split].
    + apply Hnth. rewrite Z2Nat.id by lia. repeat split. nia.
    + nia.
    + intros k' a' b' Hk' Hin. apply Hnth in Hk'.
      destruct Hk' as (Hk' & -> & ->).
      assert (Z.of_nat k' = x / chunkSize) by nia. lia.
Qed.

(** The theorem at a 12 MiB file cut in 5 MiB chunks. *)
Lemma chunkRanges_partition_witness :
  0 < 12582912 /\ 0 < CHUNK_SIZE
  /\ Z.of_nat (List.length (chunkRanges 12582912 CHUNK_SIZE))
     = totalChunksOf 12582912 CHUNK_SIZE.
Proof.
  split; [lia | split; [reflexivity |]].
  apply (chunkRanges_partition 12582912 CHUNK_SIZE); reflexivity.
Defined.

(** ** Replaying logs *)

Lemma run_app (c : Component) (l1 l2 : list Effect) :
  run c (l1 ++ l2) = run (run c l1) l2.
Proof.
  unfold run. apply fold_left_app.
Qed.

Lemma statuses_app (l1 l2 : list Effect) :
  statuses (l1 ++ l2) = (statuses l1 ++ statuses l2)%list.
Proof.
  induction l1 as [|e l1 IH]; simpl; [reflexivity|].
  destruct e; simpl; rewrite IH; reflexivity.
Qed.

(** The requests of a run of acknowledged rounds. *)
Lemma requests_app (l1 l2 : list Effect) :
  requests (l1 ++ l2) = (requests l1 ++ requests l2)%list.
Proof.
  induction l1 as [|e l1 IH]; simpl; [reflexivity|].
  destruct e; simpl; rewrite IH; reflexivity.
Qed.

(** ** The loop of a chunked upload, round by round *)

Section Rounds.

Variable clientId : string.
Variable chunked : Z -> Response.
Variable f : File.
Variable totalChunks : Z.

(** When every call is acknowledged the loop runs all its rounds. *)
Lemma sendChunks_acknowledged (rounds i : nat) :
  (forall j, (i <= j < i + rounds)%nat -> acknowledgedAt chunked j) ->
  sendChunks clientId chunked f totalChunks rounds (Z.of_nat i)
             (documentIdAt chunked i)
  = (flat_map (acknowledgedRound clientId chunked f totalChunks)
              (seq i rounds),
     documentIdAt chunked (i + rounds)).
Proof.
  revert i. induction rounds as [|n IH]; intros i Hall.
  - simpl. rewrite Nat.add_0_r. reflexivity.
  - destruct (Hall i ltac:(lia)) as [d Hd].
    cbn [sendChunks seq flat_map]. rewrite Hd.
    replace (Z.of_nat i + 1) with (Z.of_nat (S i)) by lia.
    replace (JS.or_else d (documentIdAt chunked i))
      with (documentIdAt chunked (S i))
      by (cbn [documentIdAt]; rewrite Hd; reflexivity).
    rewrite IH by (intros j Hj; apply Hall; lia).
    replace (S i + n)%nat with (i + S n)%nat by lia.
    reflexivity.
Qed.

(** When the call of round [i + k] is the first to throw, the loop runs
    [k] acknowledged rounds, the failed one, and leaves. *)
Lemma sendChunks_rejected (rounds i k : nat) (detail : option string) :
  (k < rounds)%nat ->
  (forall j, (i <= j < i + k)%nat -> acknowledgedAt chunked j) ->
  chunked (Z.of_nat (i + k)) = Rejected detail ->
  sendChunks clientId chunked f totalChunks rounds (Z.of_nat i)
             (documentIdAt chunked i)
  = ((flat_map (acknowledgedRound clientId chunked f totalChunks) (seq i k)
      ++ failedRound clientId chunked f totalChunks (i + k) detail)%list,
     documentIdAt chunked (i + k)).
Proof.
  revert i k. induction rounds as [|n IH]; intros i k Hk Hall Hrej.
  - lia.
  - destruct k as [|k].
    + rewrite Nat.add_0_r in *. cbn [sendChunks seq flat_map].
      rewrite Hrej. reflexivity.
    + destruct (Hall i ltac:(lia)) as [d Hd].
      cbn [sendChunks seq flat_map]. rewrite Hd.
      replace (Z.of_nat i + 1) with (Z.of_nat (S i)) by lia.
      replace (JS.or_else d (documentIdAt chunked i))
        with (documentIdAt chunked (S i))
        by (cbn [documentIdAt]; rewrite Hd; reflexivity).
      rewrite (IH (S i) k); try lia.
      * replace (S i + k)%nat with (i + S k)%nat by lia.
        rewrite app_assoc. reflexivity.
      * intros j Hj. apply Hall. lia.
      * replace (S i + k)%nat with (i + S k)%nat by lia. exact Hrej.
Qed.

(** The requests of a run of acknowledged rounds. *)
Lemma requests_acknowledged (js : list nat) :
  requests (flat_map (acknowledgedRound clientId chunked f totalChunks) js)
  = map (fun j => chunkRequest clientId f totalChunks (Z.of_nat j)
                               (documentIdAt chunked j)) js.
Proof.
  induction js as [|j js IH]; simpl; [reflexivity|].
  rewrite requests_app, IH. unfold acknowledgedRound.
  destruct (Z.of_nat j =? totalChunks - 1); reflexivity.
Qed.

(** Before the last round, acknowledgements only report progress. *)
Lemma statuses_acknowledged (js : list nat) :
  (forall j, In j js -> Z.of_nat j <> totalChunks - 1) ->
  statuses (flat_map (acknowledgedRound clientId chunked f totalChunks) js)
  = map (fun j => chunkUploaded (Z.of_nat j) totalChunks) js.
Proof.
  induction js as [|j js IH]; intros Hjs; simpl; [reflexivity|].
  rewrite statuses_app, IH by (intros; apply Hjs; right; assumption).
  unfold acknowledgedRound.
  destruct (Z.of_nat j =? totalChunks - 1) eqn:E.
  - apply Z.eqb_eq in E. exfalso. apply (Hjs j); [left; reflexivity | exact E].
  - reflexivity.
Qed.

(** Call [k] of the loop is posted as soon as the calls before it have been
    acknowledged, whatever becomes of it and of the later ones. *)
Lemma sendChunks_request (rounds i k : nat) :
  (k < rounds)%nat ->
  (forall j, (i <= j < i + k)%nat -> acknowledgedAt chunked j) ->
  nth_error
    (requests (fst (sendChunks clientId chunked f totalChunks rounds
                               (Z.of_nat i) (documentIdAt chunked i)))) k
  = Some (chunkRequest clientId f totalChunks (Z.of_nat (i + k))
                       (documentIdAt chunked (i + k))).
Proof.
  revert i k. induction rounds as [|n IH]; intros i k Hk Hall; [lia|].
  cbn [sendChunks].
  destruct k as [|k].
  - rewrite Nat.add_0_r.
    destruct (chunked (Z.of_nat i)) as [d|detail|];
      [| reflexivity | reflexivity].
    destruct (sendChunks clientId chunked f totalChunks n (Z.of_nat i + 1)
                (JS.or_else d (documentIdAt chunked i))) as [rest final].
    reflexivity.
  - destruct (Hall i ltac:(lia)) as [d Hd]. rewrite Hd.
    replace (Z.of_nat i + 1) with (Z.of_nat (S i)) by lia.
    replace (JS.or_else d (documentIdAt chunked i))
      with (documentIdAt chunked (S i))
      by (cbn [documentIdAt]; rewrite Hd; reflexivity).
    specialize (IH (S i) k ltac:(lia)
                   ltac:(intros j Hj; apply Hall; lia)).
    destruct (sendChunks clientId chunked f totalChunks n (Z.of_nat (S i))
                (documentIdAt chunked (S i))) as [rest final].
    cbn [fst] in *. rewrite <- app_assoc. cbn [app requests nth_error].
    rewrite requests_app.
    replace (i + S k)%nat with (S i + k)%nat by lia.
    destruct (Z.of_nat i =? totalChunks - 1); cbn [requests app]; exact IH.
Qed.

End Rounds.

(** ** [handleUpload] on a file larger than one chunk *)

Section ChunkedUpload.

Variable clientId : string.
Variable whole : Response.
Variable chunked : Z -> Response.
Variable c : Component.
Variable f : File.
Hypothesis selected : file c = Some f.
Hypothesis large : CHUNK_SIZE < size f.

Let N : Z := totalChunksOf (size f) CHUNK_SIZE.
Let n : nat := Z.to_nat N.

Lemma large_file_chunks : 2 <= N /\ Z.of_nat n = N.
Proof.
  assert (Hc : 0 < CHUNK_SIZE) by reflexivity.
  destruct (totalChunksOf_ceiling (size f) CHUNK_SIZE Hc) as [_ Hhi].
  fold N in Hhi. unfold n. nia.
Qed.

(** Every call acknowledged: all rounds run, then the two statements
    after the loop. *)
Lemma handleUpload_acknowledged :
  (forall j, (j < n)%nat -> acknowledgedAt chunked j) ->
  handleUpload clientId whole chunked c
  = (SetStatus (mkStatus 0 uploading None)
     :: flat_map (acknowledgedRound clientId chunked f N) (seq 0 n)
     ++ [ SetUploadedDocId (Some (documentIdAt chunked n));
          SetStatus uploadComplete ])%list.
Proof.
  intros Hall. unfold handleUpload. rewrite selected.
  destruct (size f <=? CHUNK_SIZE) eqn:E; [apply Z.leb_le in E; lia|].
  unfold uploadInChunks. fold N. fold n.
  change 0 with (Z.of_nat 0). change EmptyString with (documentIdAt chunked 0).
  rewrite sendChunks_acknowledged by (intros j Hj; apply Hall; lia).
  reflexivity.
Qed.

(** The call of round [k] is the first to throw: [k] acknowledged rounds,
    the failed one, then the two statements after the loop. *)
Lemma handleUpload_rejected (k : nat) (detail : option string) :
  (k < n)%nat ->
  (forall j, (j < k)%nat -> acknowledgedAt chunked j) ->
  chunked (Z.of_nat k) = Rejected detail ->
  handleUpload clientId whole chunked c
  = (SetStatus (mkStatus 0 uploading None)
     :: (flat_map (acknowledgedRound clientId chunked f N) (seq 0 k)
         ++ failedRound clientId chunked f N k detail)
     ++ [ SetUploadedDocId (Some (documentIdAt chunked k));
          SetStatus uploadComplete ])%list.
Proof.
  intros Hk Hall Hrej. unfold handleUpload. rewrite selected.
  destruct (size f <=? CHUNK_SIZE) eqn:E; [apply Z.leb_le in E; lia|].
  unfold uploadInChunks. fold N. fold n.
  change 0 with (Z.of_nat 0). change EmptyString with (documentIdAt chunked 0).
  rewrite (sendChunks_rejected clientId chunked f N n 0 k detail Hk);
    [reflexivity | intros j Hj; apply Hall; lia | exact Hrej].
Qed.

End ChunkedUpload.

(** The calls of [handleUpload] on a large file are those of its loop. *)
Lemma handleUpload_requests clientId whole chunked c f :
  file c = Some f ->
  CHUNK_SIZE < size f ->
  requests (handleUpload clientId whole chunked c)
  = requests (fst (sendChunks clientId chunked f
                     (totalChunksOf (size f) CHUNK_SIZE)
                     (Z.to_nat (totalChunksOf (size f) CHUNK_SIZE)) 0 EmptyString)).
Proof.
  intros Hsel Hlarge. unfold handleUpload. rewrite Hsel.
  destruct (size f <=? CHUNK_SIZE) eqn:E; [apply Z.leb_le in E; lia|].
  unfold uploadInChunks.
  destruct (sendChunks clientId chunked f _ _ 0 EmptyString) as [log final].
  cbn [requests fst]. rewrite requests_app. cbn [requests].
  apply app_nil_r.
Qed.

Lemma handleUpload_request clientId whole chunked c f (k : nat) :
  file c = Some f ->
  CHUNK_SIZE < size f ->
  (k < Z.to_nat (totalChunksOf (size f) CHUNK_SIZE))%nat ->
  (forall j, (j < k)%nat -> acknowledgedAt chunked j) ->
  nth_error (requests (handleUpload clientId whole chunked c)) k
  = Some (chunkRequest clientId f (totalChunksOf (size f) CHUNK_SIZE)
                       (Z.of_nat k) (documentIdAt chunked k)).
Proof.
  intros Hsel Hlarge Hk Hall.
  rewrite (handleUpload_requests clientId whole chunked c f Hsel Hlarge).
  change 0 with (Z.of_nat 0). change EmptyString with (documentIdAt chunked 0).
  rewrite sendChunks_request; [reflexivity | exact Hk |].
  intros j Hj. apply Hall. lia.
Qed.

Lemma latestIdentifier_supplied chunked (k : nat) (d : string) :
  latestIdentifier chunked k = Some d ->
  d <> EmptyString
  /\ exists i, (i < k)%nat /\ chunked (Z.of_nat i) = Resolved (Some d).
Proof.
  induction k as [|k IH]; cbn [latestIdentifier]; [discriminate|].
  assert (Hrec : latestIdentifier chunked k = Some d ->
                 d <> EmptyString /\ exists i, (i < S k)%nat
                            /\ chunked (Z.of_nat i) = Resolved (Some d)).
  { intros H. destruct (IH H) as [Hne [i [Hi Hc]]].
    split; [exact Hne | exists i; split; [lia | exact Hc]]. }
  destruct (chunked (Z.of_nat k)) as [[d'|]|detail|] eqn:Hk;
    try exact Hrec.
  destruct (String.eqb d' EmptyString) eqn:E; [exact Hrec|].
  intros H. inversion H; subst d'. apply String.eqb_neq in E.
  split; [exact E | exists k; split; [lia | exact Hk]].
Qed.

(** The local [documentId] is the most recent non-empty identifier the
    server has returned, and empty while there is none. *)
Lemma documentIdAt_latest chunked (k : nat) :
  documentIdAt chunked k
  = match latestIdentifier chunked k with Some d => d | None => EmptyString end.
Proof.
  induction k as [|k IH]; cbn [documentIdAt latestIdentifier];
    [reflexivity|].
  destruct (chunked (Z.of_nat k)) as [[d'|]|detail|];
    cbn [adopt JS.or_else];
    try exact IH.
  destruct d' as [|a d']; [exact IH | reflexivity].
Qed.

(** ** The calls of a chunked upload *)

(** The fields of the form built in round [i]. *)
Lemma chunkForm_fields (clientId : string) (f : File) (N i : Z) (d : string) :
  let form := chunkForm clientId f N i d in
  form_get "file_chunk" form
    = Some (Slice f (chunkStart CHUNK_SIZE i) (chunkEnd (size f) CHUNK_SIZE i))
  /\ form_get "document_id" form = Some (Text (JS.or_str d "new"))
  /\ form_get "chunk_index" form = Some (Text (JS.String_of i))
  /\ form_get "total_chunks" form = Some (Text (JS.String_of N))
  /\ form_get "filename" form = Some (Text (name f))
  /\ form_get "client_id" form
     = (if i =? 0 then Some (Text clientId) else None).
Proof.
  cbv zeta. unfold chunkForm. repeat split; try reflexivity.
  destruct (i =? 0); reflexivity.
Qed.

Lemma rangesFrom_map (fileSize chunkSize : Z) (rounds i : nat) :
  rangesFrom fileSize chunkSize rounds (Z.of_nat i)
  = map (fun j => (chunkStart chunkSize (Z.of_nat j),
                   chunkEnd fileSize chunkSize (Z.of_nat j)))
        (seq i rounds).
Proof.
  revert i. induction rounds as [|n IH]; intros i; [reflexivity|].
  cbn [rangesFrom seq map].
  replace (Z.of_nat i + 1) with (Z.of_nat (S i)) by lia.
  rewrite IH. reflexivity.
Qed.

(** The slices posted by an acknowledged upload are the ranges of
    [chunkRanges], in order. *)
Lemma posted_slices_are_chunkRanges
    (clientId : string) (whole : Response) (chunked : Z -> Response)
    (c : Component) (f : File) :
  file c = Some f ->
  CHUNK_SIZE < size f ->
  (forall j, (j < Z.to_nat (totalChunksOf (size f) CHUNK_SIZE))%nat ->
             acknowledgedAt chunked j) ->
  map (fun r => form_get "file_chunk" (body r))
      (requests (handleUpload clientId whole chunked c))
  = map (fun r => Some (Slice f (fst r) (snd r)))
        (chunkRanges (size f) CHUNK_SIZE).
Proof.
  intros Hsel Hlarge Hall.
  rewrite (handleUpload_acknowledged clientId whole chunked c f
             Hsel Hlarge Hall).
  cbn [requests]. rewrite requests_app, requests_acknowledged.
  cbn [requests]. rewrite app_nil_r.
  unfold chunkRanges. change 0 with (Z.of_nat 0).
  rewrite rangesFrom_map, !map_map. reflexivity.
Qed.

(** C6 as stated fails when a call is refused: with chunk 0 of the 12 MiB
    file refused, one call is made, not ceil(12 MiB / 5 MiB) = 3. *)
Lemma refused_upload_stops_short :
  let log := handleUpload "client-1" (Resolved None) (refuses 0 None)
                          reportSelected in
  CHUNK_SIZE < size report
  /\ file reportSelected = Some report
  /\ totalChunksOf (size report) CHUNK_SIZE = 3
  /\ map (fun r => form_get "chunk_index" (body r)) (requests log)
     = [ Some (Text "0") ]
  /\ Z.of_nat (List.length (requests log))
     <> totalChunksOf (size report) CHUNK_SIZE.
Proof.
  repeat split. discriminate.
Qed.

(** C6, amended. For every file larger than [CHUNK_SIZE] whose chunk calls
    are all acknowledged, [handleUpload] posts exactly
    ceil(size / CHUNK_SIZE) chunk calls, in index order 0..N-1, each posted
    after the acknowledgement of the one before it; the call of index [k]
    carries the slice of index [k], the chunk index, the total chunk count
    and the file name; the first call carries the sentinel ["new"]; the
    client identifier is attached to the call of index 0 and to no
    other. *)
Theorem chunk_calls_when_acknowledged
    (clientId : string) (whole : Response) (chunked : Z -> Response)
    (c : Component) (f : File) :
  file c = Some f ->
  CHUNK_SIZE < size f ->
  let N := totalChunksOf (size f) CHUNK_SIZE in
  (forall j, (j < Z.to_nat N)%nat -> acknowledgedAt chunked j) ->
  let log := handleUpload clientId whole chunked c in
  Z.of_nat (List.length (requests log)) = N
  /\ (exists after,
        log = (SetStatus (mkStatus 0 uploading None)
               :: flat_map (acknowledgedRound clientId chunked f N)
                           (seq 0 (Z.to_nat N))
               ++ after)%list
        /\ requests after = [])
  /\ (forall k, (k < Z.to_nat N)%nat ->
        exists r,
          nth_error (requests log) k = Some r
          /\ url r = "/api/v1/documents/upload-chunked"
          /\ form_get "file_chunk" (body r)
             = Some (Slice f (chunkStart CHUNK_SIZE (Z.of_nat k))
                             (chunkEnd (size f) CHUNK_SIZE (Z.of_nat k)))
          /\ form_get "chunk_index" (body r)
             = Some (Text (JS.String_of (Z.of_nat k)))
          /\ form_get "total_chunks" (body r) = Some (Text (JS.String_of N))
          /\ form_get "filename" (body r) = Some (Text (name f))
          /\ form_get "client_id" (body r)
             = (if Nat.eqb k 0 then Some (Text clientId) else None)
          /\ (k = 0%nat ->
              form_get "document_id" (body r) = Some (Text "new"))).
Proof.
  intros Hsel Hlarge N Hall log.
  assert (Hlog := handleUpload_acknowledged clientId whole chunked c f
                    Hsel Hlarge Hall).
  fold N in Hlog. fold log in Hlog.
  assert (Hreqs : requests log
                  = map (fun j => chunkRequest clientId f N (Z.of_nat j)
                                    (documentIdAt chunked j))
                        (seq 0 (Z.to_nat N))).
  { rewrite Hlog. cbn [requests]. rewrite requests_app, requests_acknowledged.
    cbn [requests]. apply app_nil_r. }
  destruct (large_file_chunks f Hlarge) as [HN Hn]. fold N in HN, Hn.
  split; [| split].
  - rewrite Hreqs, length_map, length_seq. exact Hn.
  - eexists. split; [exact Hlog | reflexivity].
  - intros k Hk.
    exists (chunkRequest clientId f N (Z.of_nat k) (documentIdAt chunked k)).
    split.
    { rewrite Hreqs. rewrite nth_error_map, nth_error_seq.
      apply Nat.ltb_lt in Hk. rewrite Hk. reflexivity. }
    destruct (chunkForm_fields clientId f N (Z.of_nat k)
                (documentIdAt chunked k)) as (H1 & H2 & H3 & H4 & H5 & H6).
    cbn [chunkRequest url body].
    repeat (split; [assumption || reflexivity |]).
    split.
    + rewrite H6. destruct k; reflexivity.
    + intros ->. rewrite H2. reflexivity.
Qed.

(** The theorem at the 12 MiB file, every chunk acknowledged. *)
Lemma chunk_calls_when_acknowledged_witness :
  file reportSelected = Some report
  /\ CHUNK_SIZE < size report
  /\ Z.of_nat (List.length
       (requests (handleUpload "client-1" (Resolved None) namesOnce
                               reportSelected))) = 3.
Proof.
  split; [reflexivity | split; [reflexivity |]].
  apply (chunk_calls_when_acknowledged "client-1" (Resolved None) namesOnce
           reportSelected report).
  - reflexivity.
  - reflexivity.
  - intros j Hj. unfold acknowledgedAt, namesOnce.
    destruct (Z.of_nat j =? 0); eexists; reflexivity.
Defined.

(** ** Completion events *)

(** What [onmessage] does with a ['processing_complete'] payload, whatever
    identifier it carries. *)
Lemma onmessage_processing_complete (p : Payload) (c : Component) :
  event p = Some "processing_complete" ->
  let c' := run c (onmessage (Parsed p) c) in
  upload c' = mkStatus (progress (upload c)) completed
                       (Some "Processing complete!")
  /\ file c' = file c
  /\ uploadedDocId c' = uploadedDocId c.
Proof.
  intros Hev. unfold onmessage. rewrite Hev. cbn. repeat split.
Qed.

(** The status updates of a chunked upload whose calls are all
    acknowledged: [uploading] at the start, the progress after each chunk,
    [assembling] on the last acknowledgement and, from the statements after
    the loop, [completed]. *)
Lemma acknowledged_upload_statuses
    (clientId : string) (whole : Response) (chunked : Z -> Response)
    (c : Component) (f : File) :
  file c = Some f ->
  CHUNK_SIZE < size f ->
  let N := totalChunksOf (size f) CHUNK_SIZE in
  (forall j, (j < Z.to_nat N)%nat -> acknowledgedAt chunked j) ->
  statuses (handleUpload clientId whole chunked c)
  = (mkStatus 0 uploading None
     :: map (fun j => chunkUploaded (Z.of_nat j) N) (seq 0 (Z.to_nat N))
     ++ [ nowAssembling; uploadComplete ])%list.
Proof.
  intros Hsel Hlarge N Hall.
  rewrite (handleUpload_acknowledged clientId whole chunked c f
             Hsel Hlarge Hall). fold N.
  destruct (large_file_chunks f Hlarge) as [HN Hn]. fold N in HN, Hn.
  destruct (Z.to_nat N) as [|m] eqn:Em; [lia|].
  assert (Hm : Z.of_nat m = N - 1) by lia.
  rewrite !seq_S, flat_map_app, map_app. cbn [flat_map map Nat.add].
  unfold acknowledgedRound at 2. rewrite Hm, Z.eqb_refl, app_nil_r.
  cbn [statuses]. rewrite !statuses_app, statuses_acknowledged.
  - cbn [statuses app]. rewrite <- !app_assoc. reflexivity.
  - intros j Hj. apply in_seq in Hj. lia.
Qed.

(** C1, on the code. In the upload of the 12 MiB file whose three chunk
    calls are acknowledged, the acknowledgement of the last chunk sets the
    status to [assembling] and the two statements after the loop, which
    follow it without any [await], set it to [completed]: when
    [handleUpload] returns the status is [completed] with the message
    ["Upload complete!"], although no completion event has been handled
    (no processing notice is recorded). *)
Theorem last_chunk_success_ends_completed :
  let log := handleUpload "client-1" (Resolved None) namesOnce
                          reportSelected in
  statuses log
  = [ mkStatus 0 uploading None;
      mkStatus 33 uploading (Some "Chunk 1 uploaded");
      mkStatus 67 uploading (Some "Chunk 2 uploaded");
      mkStatus 100 uploading (Some "Chunk 3 uploaded");
      mkStatus 100 assembling (Some "Assembling and processing...");
      mkStatus 100 completed (Some "Upload complete!") ]
  /\ skipn 7 log
     = [ SetStatus (mkStatus 100 assembling
                      (Some "Assembling and processing..."));
         SetUploadedDocId (Some "doc-1");
         SetStatus (mkStatus 100 completed (Some "Upload complete!")) ]
  /\ upload (run reportSelected log)
     = mkStatus 100 completed (Some "Upload complete!")
  /\ processingMsg (run reportSelected log) = None.
Proof.
  repeat split.
Qed.

(** Messages that do not parse, and payloads of another kind, are
    dropped. *)
Lemma onmessage_discards (msg : WsMessage) (c : Component) :
  (forall p, msg = Parsed p -> event p <> Some "processing_complete") ->
  onmessage msg c = [].
Proof.
  intros Hother. destruct msg as [|p]; [reflexivity|].
  unfold onmessage. destruct (event p) as [ev|] eqn:Hev; [|reflexivity].
  destruct (String.eqb ev "processing_complete") eqn:E; [|reflexivity].
  apply String.eqb_eq in E. subst ev. exfalso. exact (Hother p eq_refl Hev).
Qed.

(** C2 as stated fails: a completion event for ["doc-2"], received while
    the upload known as ["doc-1"] is in progress, is not dropped; it
    changes the status from [uploading] to [completed] and replaces the
    message. *)
Lemma other_document_event_not_discarded :
  let c := secondChunkInFlight in
  let ev := processingComplete (Some "other.pdf") (Some "doc-2") in
  upload c = mkStatus 33 uploading (Some "Chunk 1 uploaded")
  /\ documentIdAt namesOnce 1 = "doc-1"
  /\ uploadedDocId c = None
  /\ onmessage ev c <> []
  /\ upload (run c (onmessage ev c))
     = mkStatus 33 completed (Some "Processing complete!")
  /\ upload (run c (onmessage ev c)) <> upload c.
Proof.
  repeat split; discriminate.
Qed.

(** C2, amended. A ['processing_complete'] event delivered on the channel
    is not matched against the session: even when its document identifier
    differs from the session's, the handler sets the status to [completed]
    and the message to ["Processing complete!"]; the progress, the selected
    file and the stored identifier are unchanged. *)
Theorem completion_event_not_matched
    (p : Payload) (c : Component) (sessionId : option string) :
  event p = Some "processing_complete" ->
  document_id p <> sessionId ->
  let c' := run c (onmessage (Parsed p) c) in
  status (upload c') = completed
  /\ message (upload c') = Some "Processing complete!"
  /\ progress (upload c') = progress (upload c)
  /\ file c' = file c
  /\ uploadedDocId c' = uploadedDocId c.
Proof.
  intros Hev _ c'.
  destruct (onmessage_processing_complete p c Hev) as (Hu & Hf & Hd).
  fold c' in Hu, Hf, Hd. rewrite Hu. repeat split; assumption.
Qed.

(** The theorem at the event for ["doc-2"] received during the upload of
    ["doc-1"]. *)
Lemma completion_event_not_matched_witness :
  status (upload (run secondChunkInFlight
            (onmessage (processingComplete (Some "other.pdf") (Some "doc-2"))
                       secondChunkInFlight))) = completed.
Proof.
  apply (completion_event_not_matched
           (mkPayload (Some "processing_complete") (Some "other.pdf")
                      (Some "doc-2"))
           secondChunkInFlight (Some "doc-1")).
  - reflexivity.
  - discriminate.
Defined.

(** ** A refused chunk *)

(** X3. Whenever the call of chunk [k] is the first to be refused, the
    calls posted are those of chunks 0..k and no other, the [catch] records
    [chunkFailed], and the statements after the loop leave the status
    [completed]. *)
Lemma refused_chunk_in_general
    (clientId : string) (whole : Response) (chunked : Z -> Response)
    (c : Component) (f : File) (k : nat) (detail : option string) :
  file c = Some f ->
  CHUNK_SIZE < size f ->
  let N := totalChunksOf (size f) CHUNK_SIZE in
  (k < Z.to_nat N)%nat ->
  (forall j, (j < k)%nat -> acknowledgedAt chunked j) ->
  chunked (Z.of_nat k) = Rejected detail ->
  let log := handleUpload clientId whole chunked c in
  requests log
  = map (fun j => chunkRequest clientId f N (Z.of_nat j)
                               (documentIdAt chunked j)) (seq 0 (S k))
  /\ In (SetStatus (chunkFailed (Z.of_nat k) N detail)) log
  /\ upload (run c log) = mkStatus 100 completed (Some "Upload complete!").
Proof.
  intros Hsel Hlarge N Hk Hall Hrej log.
  assert (Hlog := handleUpload_rejected clientId whole chunked c f
                    Hsel Hlarge k detail Hk Hall Hrej).
  fold N in Hlog. fold log in Hlog. rewrite Hlog. split; [| split].
  - cbn [requests]. rewrite !requests_app, requests_acknowledged.
    cbn [requests failedRound]. rewrite app_nil_r, seq_S, map_app.
    reflexivity.
  - right. apply in_or_app. left. apply in_or_app. right.
    right. left. reflexivity.
  - change (SetStatus (mkStatus 0 uploading None) :: ?l)
      with ([SetStatus (mkStatus 0 uploading None)] ++ l)%list.
    rewrite !run_app. reflexivity.
Qed.

(** C3, on the code. In the upload of the 12 MiB file (3 chunks) whose
    chunk 1 is refused with the detail ["Disk full"], chunks 0 and 1 are
    sent and chunk 2 is not; the [catch] records the status [error] with
    the server's detail and progress 67, which counts the refused chunk
    (one chunk completed is 33); the statements after the loop then
    replace it, and the upload ends [completed] with progress 100 and the
    message ["Upload complete!"]. *)
Theorem refused_chunk_ends_completed :
  let log := handleUpload "client-1" (Resolved None)
                          (refuses 1 (Some "Disk full")) reportSelected in
  map (fun r => form_get "chunk_index" (body r)) (requests log)
    = [ Some (Text "0"); Some (Text "1") ]
  /\ reported log
     = [ mkStatus 33 uploading (Some "Chunk 1 uploaded");
         mkStatus 67 error (Some "Disk full") ]
  /\ upload (run reportSelected log)
     = mkStatus 100 completed (Some "Upload complete!").
Proof.
  repeat split.
Qed.

(** ** A file of at most one chunk *)

(** C4 as stated fails: the upload of the 3 MiB file sets the status to
    [uploading] before its single call. *)
Lemma small_upload_visits_uploading :
  size memo <= CHUNK_SIZE
  /\ file memoSelected = Some memo
  /\ statuses (handleUpload "client-1" (Resolved (Some "doc-9")) namesOnce
                            memoSelected)
     = [ mkStatus 0 uploading None;
         mkStatus 100 completed (Some "Upload complete!") ]
  /\ ~ (forall s,
          In s (statuses (handleUpload "client-1" (Resolved (Some "doc-9"))
                                       namesOnce memoSelected)) ->
          status s <> uploading /\ status s <> assembling).
Proof.
  split; [discriminate | split; [reflexivity | split; [reflexivity |]]].
  intros H. destruct (H (mkStatus 0 uploading None)) as [Hu _].
  - left. reflexivity.
  - apply Hu. reflexivity.
Qed.

(** C4, amended. For every file of at most [CHUNK_SIZE] bytes,
    [handleUpload] posts exactly one call, the whole-file one, carrying the
    file and the client identifier; the status is [uploading] with
    progress 0 while the call is in flight and is never [assembling]; when
    the call succeeds the upload ends [completed] with progress 100 and the
    identifier of the response is stored. *)
Theorem small_file_uploaded_whole
    (clientId : string) (whole : Response) (chunked : Z -> Response)
    (c : Component) (f : File) :
  file c = Some f ->
  size f <= CHUNK_SIZE ->
  let log := handleUpload clientId whole chunked c in
  requests log
    = [ mkRequest "/api/v1/documents/upload"
                  [ ("file", WholeFile f); ("client_id", Text clientId) ] ]
  /\ (exists after,
        log = SetStatus (mkStatus 0 uploading None)
              :: Post (mkRequest "/api/v1/documents/upload"
                         [ ("file", WholeFile f);
                           ("client_id", Text clientId) ])
              :: after
        /\ requests after = [])
  /\ (forall s, In s (statuses log) -> status s <> assembling)
  /\ (forall id, whole = Resolved id ->
        statuses log
        = [ mkStatus 0 uploading None;
            mkStatus 100 completed (Some "Upload complete!") ]
        /\ upload (run c log)
           = mkStatus 100 completed (Some "Upload complete!")
        /\ uploadedDocId (run c log) = id).
Proof.
  intros Hsel Hsmall log. unfold log, handleUpload. rewrite Hsel.
  apply Z.leb_le in Hsmall. rewrite Hsmall.
  unfold uploadDirectly, wholeForm.
  destruct whole as [id | detail |]; cbn.
  - split; [reflexivity | split; [eexists; split; reflexivity | split]].
    + intros s [<- | [<- | []]]; discriminate.
    + intros id' Heq. inversion Heq; subst. repeat split.
  - split; [reflexivity | split; [eexists; split; reflexivity | split]].
    + intros s [<- | [<- | []]]; discriminate.
    + intros id' Heq. discriminate.
  - split; [reflexivity | split; [eexists; split; reflexivity | split]].
    + intros s [<- | [<- | [<- | []]]]; discriminate.
    + intros id' Heq. discriminate.
Qed.

(** The theorem at the 3 MiB file. *)
Lemma small_file_uploaded_whole_witness :
  List.length (requests (handleUpload "client-1" (Resolved (Some "doc-9"))
                                      namesOnce memoSelected)) = 1%nat.
Proof.
  rewrite (proj1 (small_file_uploaded_whole "client-1"
                    (Resolved (Some "doc-9")) namesOnce memoSelected memo
                    eq_refl ltac:(discriminate))).
  reflexivity.
Defined.

(** ** No file *)

(** C9 as stated fails: with no file, selecting and uploading do nothing
    and report no error. *)
Lemma no_file_does_nothing :
  let log := handleUpload "client-1" (Resolved None) namesOnce initial in
  file initial = None
  /\ handleFileChange [] = []
  /\ log = []
  /\ run initial log = initial
  /\ ~ (exists s, In s (statuses log) /\ status s = error)
  /\ status (upload (run initial log)) <> error.
Proof.
  repeat split; try discriminate.
  intros [s [[] _]].
Qed.

(** C9, amended. When no file is provided, file selection and upload
    start do nothing: no call is posted, no state is set, and the component
    is left as it was, without an error status. *)
Theorem no_file_no_effect
    (clientId : string) (whole : Response) (chunked : Z -> Response)
    (c : Component) :
  file c = None ->
  handleUpload clientId whole chunked c = []
  /\ run c (handleUpload clientId whole chunked c) = c
  /\ handleFileChange [] = []
  /\ run c (handleFileChange []) = c.
Proof.
  intros Hnone. unfold handleUpload. rewrite Hnone. repeat split.
Qed.

(** The theorem at the component as first rendered. *)
Lemma no_file_no_effect_witness :
  file initial = None
  /\ handleUpload "client-1" (Resolved None) namesOnce initial = [].
Proof.
  split; [reflexivity |].
  apply (no_file_no_effect "client-1" (Resolved None) namesOnce initial).
  reflexivity.
Defined.

(** ** The 12 MiB scenario *)

(** C5 as stated fails on the first progress value: after the first of
    three chunks [Math.round((1 / 3) * 100)] is 33, not 34. *)
Lemma twelve_mib_progress_is_not_34 :
  let log := handleUpload "client-1" (Resolved None) namesOnce
                          reportSelected in
  size report = 12 * MiB
  /\ CHUNK_SIZE = 5 * MiB
  /\ map progress (reported log) = [ 33; 67; 100 ]
  /\ map progress (reported log) <> [ 34; 67; 100 ].
Proof.
  repeat split. discriminate.
Qed.

(** C5, amended. A 12 MiB file uploaded with the 5 MiB chunk size is
    split into exactly 3 chunks, of 5, 5 and 2 MiB; when the three calls
    are acknowledged the progress values reported after them are 33, 67 and
    100, and the status set on the third acknowledgement is [assembling]
    with progress 100. *)
Theorem twelve_mib_scenario
    (clientId : string) (whole : Response) (chunked : Z -> Response)
    (c : Component) (fname : string) :
  let f := mkFile fname (12 * MiB) in
  file c = Some f ->
  (forall j, (j < 3)%nat -> acknowledgedAt chunked j) ->
  let log := handleUpload clientId whole chunked c in
  totalChunksOf (size f) CHUNK_SIZE = 3
  /\ chunkRanges (size f) CHUNK_SIZE
     = [ (0, 5 * MiB); (5 * MiB, 10 * MiB); (10 * MiB, 12 * MiB) ]
  /\ map (fun r => snd r - fst r) (chunkRanges (size f) CHUNK_SIZE)
     = [ 5 * MiB; 5 * MiB; 2 * MiB ]
  /\ map (fun r => form_get "file_chunk" (body r)) (requests log)
     = [ Some (Slice f 0 (5 * MiB));
         Some (Slice f (5 * MiB) (10 * MiB));
         Some (Slice f (10 * MiB) (12 * MiB)) ]
  /\ map progress (reported log) = [ 33; 67; 100 ]
  /\ (exists after,
        statuses log
        = ([ mkStatus 0 uploading None;
             mkStatus 33 uploading (Some "Chunk 1 uploaded");
             mkStatus 67 uploading (Some "Chunk 2 uploaded");
             mkStatus 100 uploading (Some "Chunk 3 uploaded");
             mkStatus 100 assembling (Some "Assembling and processing...") ]
           ++ after)%list).
Proof.
  intros f Hsel Hall log.
  assert (Hlarge : CHUNK_SIZE < size f) by reflexivity.
  assert (Hlog := handleUpload_acknowledged clientId whole chunked c f
                    Hsel Hlarge Hall).
  fold log in Hlog. rewrite Hlog.
  change (totalChunksOf (size f) CHUNK_SIZE) with 3.
  change (Z.to_nat 3) with 3%nat.
  split; [reflexivity | split; [reflexivity | split; [reflexivity |]]].
  cbn [seq flat_map acknowledgedRound Z.of_nat Pos.of_succ_nat Pos.succ].
  split; [reflexivity | split; [reflexivity |]].
  eexists. reflexivity.
Qed.

(** The theorem at the server that names the document once. *)
Lemma twelve_mib_scenario_witness :
  file reportSelected = Some report
  /\ map progress (reported (handleUpload "client-1" (Resolved None)
                                          namesOnce reportSelected))
     = [ 33; 67; 100 ].
Proof.
  split; [reflexivity |].
  apply (twelve_mib_scenario "client-1" (Resolved None) namesOnce
           reportSelected "report.pdf").
  - reflexivity.
  - intros j Hj. unfold acknowledgedAt, namesOnce.
    destruct (Z.of_nat j =? 0); eexists; reflexivity.
Defined.

(** ** The document identifier carried by the calls *)

(** C8 as stated fails: when the server answers chunk 0 with ["doc-1"] and
    chunk 1 with ["doc-2"], the component replaces its assigned identifier
    and the call for chunk 2 carries ["doc-2"], not the first identifier
    ["doc-1"]. *)
Lemma later_identifier_replaces_first :
  let log := handleUpload "client-1" (Resolved None) renames
                          reportSelected in
  adopt "doc-1" (renames 1) = "doc-2"
  /\ adoptIfUnassigned "doc-1" (renames 1) = "doc-1"
  /\ map (fun r => form_get "document_id" (body r)) (requests log)
     = [ Some (Text "new"); Some (Text "doc-1"); Some (Text "doc-2") ]
  /\ map (fun r => form_get "document_id" (body r)) (requests log)
     <> [ Some (Text "new"); Some (Text "doc-1"); Some (Text "doc-1") ].
Proof.
  repeat split. discriminate.
Qed.

(** C8, amended. On each acknowledged chunk the component adopts the
    identifier returned by the server whenever it is non-empty, whether or
    not it already holds one, and keeps its own otherwise; each call
    posted after acknowledged ones carries the most recent non-empty
    identifier the server has returned, and the sentinel ["new"] while
    there is none. *)
Theorem identifier_adopted_when_returned
    (clientId : string) (whole : Response) (chunked : Z -> Response)
    (c : Component) (f : File) (k : nat) :
  file c = Some f ->
  CHUNK_SIZE < size f ->
  (k < Z.to_nat (totalChunksOf (size f) CHUNK_SIZE))%nat ->
  (forall j, (j < k)%nat -> acknowledgedAt chunked j) ->
  (forall j d, chunked (Z.of_nat j) = Resolved d ->
     documentIdAt chunked (S j)
     = match d with
       | Some id => if String.eqb id EmptyString then documentIdAt chunked j else id
       | None => documentIdAt chunked j
       end)
  /\ exists r,
       nth_error (requests (handleUpload clientId whole chunked c)) k
       = Some r
       /\ form_get "document_id" (body r)
          = Some (Text (match latestIdentifier chunked k with
                        | Some id => id
                        | None => "new"
                        end)).
Proof.
  intros Hsel Hlarge Hk Hall. split.
  - intros j d Hd. cbn [documentIdAt]. rewrite Hd. cbn [adopt].
    destruct d as [[|a id]|]; reflexivity.
  - eexists. split.
    + apply (handleUpload_request clientId whole chunked c f k); assumption.
    + cbn [chunkRequest body].
      destruct (chunkForm_fields clientId f
                  (totalChunksOf (size f) CHUNK_SIZE) (Z.of_nat k)
                  (documentIdAt chunked k)) as (_ & H2 & _).
      rewrite H2, documentIdAt_latest.
      destruct (latestIdentifier chunked k) as [id|] eqn:Hl; [|reflexivity].
      destruct (latestIdentifier_supplied chunked k id Hl) as [Hne _].
      destruct id; [contradiction | reflexivity].
Qed.

(** The theorem at the third call of the upload whose server names the
    document twice. *)
Lemma identifier_adopted_when_returned_witness :
  exists r,
    nth_error (requests (handleUpload "client-1" (Resolved None) renames
                                      reportSelected)) 2 = Some r
    /\ form_get "document_id" (body r) = Some (Text "doc-2").
Proof.
  apply (identifier_adopted_when_returned "client-1" (Resolved None) renames
           reportSelected report 2).
  - reflexivity.
  - reflexivity.
  - vm_compute. lia.
  - intros j Hj. unfold acknowledgedAt, renames.
    destruct (Z.of_nat j =? 0); [eexists; reflexivity|].
    destruct (Z.of_nat j =? 1); eexists; reflexivity.
Defined.

(** C10. During a chunked upload, once the answer to some chunk [i] has
    supplied a non-empty document identifier, the local identifier is
    never empty again: every later call [j] that is posted carries in its
    [document_id] field the local identifier itself, which is a non-empty
    identifier supplied by the server in an earlier answer, and not the
    fallback ["new"] (so it differs from ["new"] unless the server itself
    names a document so), whether or not the answers after [i] carry an
    identifier. *)
Theorem identifier_never_unassigned_again
    (clientId : string) (whole : Response) (chunked : Z -> Response)
    (c : Component) (f : File) (i j : nat) (d : string) :
  file c = Some f ->
  CHUNK_SIZE < size f ->
  (i < j < Z.to_nat (totalChunksOf (size f) CHUNK_SIZE))%nat ->
  (forall k, (k < j)%nat -> acknowledgedAt chunked k) ->
  chunked (Z.of_nat i) = Resolved (Some d) ->
  d <> EmptyString ->
  documentIdAt chunked j <> EmptyString
  /\ exists r,
       nth_error (requests (handleUpload clientId whole chunked c)) j
       = Some r
       /\ form_get "document_id" (body r)
          = Some (Text (documentIdAt chunked j))
       /\ (exists i', (i' < j)%nat
             /\ chunked (Z.of_nat i')
                = Resolved (Some (documentIdAt chunked j)))
       /\ ((forall k id, chunked k = Resolved (Some id) -> id <> "new") ->
           form_get "document_id" (body r) <> Some (Text "new")).
Proof.
  intros Hsel Hlarge Hij Hall Hi Hd.
  assert (Hlatest : exists id, latestIdentifier chunked j = Some id).
  { assert (Hgen : forall m, (i < m)%nat ->
                     exists id, latestIdentifier chunked m = Some id).
    { induction m as [|m IHm]; intros Hm; [lia|].
      cbn [latestIdentifier].
      destruct (Nat.eq_dec i m) as [->|Hne].
      - rewrite Hi. destruct (String.eqb d EmptyString) eqn:E.
        + apply String.eqb_eq in E. contradiction.
        + eexists; reflexivity.
      - destruct (IHm ltac:(lia)) as [id Hid].
        destruct (chunked (Z.of_nat m)) as [[d'|]|detail|];
          try (exists id; exact Hid).
        destruct (String.eqb d' EmptyString); eexists; [exact Hid | reflexivity]. }
    apply Hgen. lia. }
  destruct Hlatest as [id Hid].
  destruct (latestIdentifier_supplied chunked j id Hid) as [Hne [i' [Hi' Hc]]].
  assert (Hdoc : documentIdAt chunked j = id)
    by (rewrite documentIdAt_latest, Hid; reflexivity).
  rewrite Hdoc. split; [exact Hne|].
  eexists. split.
  - apply (handleUpload_request clientId whole chunked c f j);
      [assumption | assumption | lia | assumption].
  - cbn [chunkRequest body].
    destruct (chunkForm_fields clientId f
                (totalChunksOf (size f) CHUNK_SIZE) (Z.of_nat j)
                (documentIdAt chunked j)) as (_ & H2 & _).
    rewrite H2, Hdoc.
    assert (Hor : JS.or_str id "new" = id)
      by (destruct id; [contradiction | reflexivity]).
    rewrite Hor. split; [reflexivity | split].
    + exists i'. split; assumption.
    + intros Hnew Heq. inversion Heq as [Heq'].
      exact (Hnew _ _ Hc Heq').
Qed.

(** The theorem at the third call of the 12 MiB upload whose server names
    the document in its first answer and omits the name afterwards. *)
Lemma identifier_never_unassigned_again_witness :
  namesOnce 1 = Resolved None
  /\ documentIdAt namesOnce 2 <> EmptyString.
Proof.
  split; [reflexivity |].
  apply (identifier_never_unassigned_again "client-1" (Resolved None)
           namesOnce reportSelected report 0 2 "doc-1").
  - reflexivity.
  - reflexivity.
  - vm_compute. lia.
  - intros k Hk. unfold acknowledgedAt, namesOnce.
    destruct (Z.of_nat k =? 0); eexists; reflexivity.
  - reflexivity.
  - discriminate.
Defined.

(** * Further properties *)

(** ** Cutting a file and putting it back together *)

Section Reassembly.

Variable A : Type.
Variable bytes : list A.
Variable chunkSize : Z.
Hypothesis chunk_pos : 0 < chunkSize.

Let len : Z := Z.of_nat (List.length bytes).

Lemma firstn_add (n m : nat) (l : list A) :
  firstn (n + m) l = (firstn n l ++ firstn m (skipn n l))%list.
Proof.
  revert l. induction n as [|n IH]; intros l; [reflexivity|].
  destruct l as [|x l]; cbn [Nat.add firstn skipn app].
  - rewrite firstn_nil. reflexivity.
  - rewrite IH. reflexivity.
Qed.

(** Inside the blob, [slice] is [skipn] then [firstn]. *)
Lemma Blob_slice_inside (a b : Z) :
  0 <= a <= b -> b <= len ->
  Blob_slice A bytes a b
  = firstn (Z.to_nat (b - a)) (skipn (Z.to_nat a) bytes).
Proof.
  intros Hab Hb. unfold Blob_slice. fold len.
  destruct (a <? 0) eqn:Ea; [apply Z.ltb_lt in Ea; lia|].
  destruct (b <? 0) eqn:Eb; [apply Z.ltb_lt in Eb; lia|].
  rewrite (Z.min_l a len), (Z.min_l b len), Z.max_l by lia. reflexivity.
Qed.

(** A slice that starts at or after the end of the blob is empty. *)
Lemma Blob_slice_beyond (a b : Z) :
  len <= a -> Blob_slice A bytes a b = [].
Proof.
  intros Ha. unfold Blob_slice. fold len.
  assert (Hlen : 0 <= len) by (unfold len; lia).
  destruct (a <? 0) eqn:Ea; [apply Z.ltb_lt in Ea; lia|].
  rewrite (Z.min_r a len) by lia.
  replace (Z.to_nat len) with (List.length bytes) by (unfold len; lia).
  rewrite skipn_all. apply firstn_nil.
Qed.

Lemma chunks_beyond (rounds i : nat) :
  len <= Z.of_nat i * chunkSize ->
  List.concat (map (fun r => Blob_slice A bytes (fst r) (snd r))
              (rangesFrom len chunkSize rounds (Z.of_nat i))) = [].
Proof.
  revert i. induction rounds as [|n IH]; intros i Hi; [reflexivity|].
  cbn [rangesFrom map List.concat fst snd].
  replace (Z.of_nat i + 1) with (Z.of_nat (S i)) by lia.
  rewrite IH by nia.
  rewrite Blob_slice_beyond by (unfold chunkStart; lia). reflexivity.
Qed.

Lemma chunks_from (rounds i : nat) :
  Z.of_nat i * chunkSize <= len ->
  List.concat (map (fun r => Blob_slice A bytes (fst r) (snd r))
              (rangesFrom len chunkSize rounds (Z.of_nat i)))
  = firstn (Z.to_nat (Z.min (Z.of_nat (i + rounds) * chunkSize) len
                      - Z.of_nat i * chunkSize))
           (skipn (Z.to_nat (Z.of_nat i * chunkSize)) bytes).
Proof.
  revert i. induction rounds as [|n IH]; intros i Hi.
  - rewrite Nat.add_0_r, Z.min_l, Z.sub_diag by lia. reflexivity.
  - cbn [rangesFrom map List.concat fst snd].
    replace (Z.of_nat i + 1) with (Z.of_nat (S i)) by lia.
    unfold chunkEnd, chunkStart.
    assert (Ha : 0 <= Z.of_nat i * chunkSize) by nia.
    assert (Hnext : Z.of_nat (S i) * chunkSize
                    = Z.of_nat i * chunkSize + chunkSize) by lia.
    assert (Hlast : Z.of_nat i * chunkSize + chunkSize
                    <= Z.of_nat (i + S n) * chunkSize) by nia.
    destruct (Z_le_gt_dec (Z.of_nat (S i) * chunkSize) len) as [Hin|Hout].
    + rewrite IH by exact Hin.
      rewrite Hnext in *.
      replace (S i + n)%nat with (i + S n)%nat by lia.
      set (a := Z.of_nat i * chunkSize) in *.
      set (e := Z.min (Z.of_nat (i + S n) * chunkSize) len).
      assert (He : a + chunkSize <= e) by (unfold e; lia).
      rewrite Blob_slice_inside by lia.
      rewrite (Z.min_l (a + chunkSize) len) by lia.
      replace (Z.to_nat (a + chunkSize))
        with (Z.to_nat chunkSize + Z.to_nat a)%nat by lia.
      rewrite <- skipn_skipn.
      replace (Z.to_nat (a + chunkSize - a)) with (Z.to_nat chunkSize) by lia.
      rewrite <- firstn_add. f_equal. lia.
    + rewrite chunks_beyond by lia. rewrite app_nil_r.
      rewrite Hnext in *.
      set (a := Z.of_nat i * chunkSize) in *.
      rewrite Blob_slice_inside by lia.
      rewrite (Z.min_r (a + chunkSize) len) by lia.
      rewrite (Z.min_r (Z.of_nat (i + S n) * chunkSize) len) by lia.
      reflexivity.
Qed.

End Reassembly.

(** X1. The chunks cut by the loop from the bytes of a non-empty file, for
    any positive chunk size, put end to end in the order they are posted,
    are the bytes of the file: nothing is lost, repeated or reordered. *)
Theorem chunks_reassemble (A : Type) (bytes : list A) (chunkSize : Z) :
  0 < chunkSize ->
  bytes <> [] ->
  List.concat (chunksOf A bytes chunkSize) = bytes.
Proof.
  intros Hc Hne. unfold chunksOf, chunkRanges.
  set (len := Z.of_nat (List.length bytes)).
  assert (Hlen : 0 < len).
  { unfold len. destruct bytes; [contradiction | cbn [List.length]; lia]. }
  destruct (totalChunksOf_ceiling len chunkSize Hc) as [_ Hhi].
  pose proof (totalChunksOf_pos len chunkSize Hlen Hc) as HN.
  change 0 with (Z.of_nat 0) at 1.
  unfold len at 1 2.
  rewrite (chunks_from A bytes chunkSize Hc) by (fold len; lia).
  fold len. cbn [Nat.add]. rewrite Z2Nat.id by lia.
  rewrite Z.min_r by lia. cbn [Z.of_nat Z.mul Z.to_nat skipn].
  rewrite Z.sub_0_r. unfold len. rewrite Nat2Z.id. apply firstn_all.
Qed.

(** The theorem at a file of five bytes cut in chunks of two. *)
Lemma chunks_reassemble_witness :
  chunksOf Z [1; 2; 3; 4; 5] 2 = [ [1; 2]; [3; 4]; [5] ]
  /\ List.concat (chunksOf Z [1; 2; 3; 4; 5] 2) = [1; 2; 3; 4; 5].
Proof.
  split; [reflexivity |].
  apply (chunks_reassemble Z [1; 2; 3; 4; 5] 2); [lia | discriminate].
Defined.

(** ** The calls of a chunked upload, whatever the server answers *)

Lemma sendChunks_calls clientId chunked f N (rounds i : nat) (d : string)
    (k : nat) (r : Request) :
  nth_error (requests (fst (sendChunks clientId chunked f N rounds
                                       (Z.of_nat i) d))) k = Some r ->
  (k < rounds)%nat
  /\ exists d', r = chunkRequest clientId f N (Z.of_nat (i + k)) d'.
Proof.
  revert i d k. induction rounds as [|n IH]; intros i d k Hk.
  - destruct k; discriminate.
  - cbn [sendChunks] in Hk.
    destruct (chunked (Z.of_nat i)) as [d0|detail|].
    + replace (Z.of_nat i + 1) with (Z.of_nat (S i)) in Hk by lia.
      specialize (IH (S i) (JS.or_else d0 d)).
      destruct (sendChunks clientId chunked f N n (Z.of_nat (S i))
                  (JS.or_else d0 d)) as [rest final].
      cbn [fst] in *. rewrite <- app_assoc in Hk.
      cbn [app requests] in Hk. rewrite requests_app in Hk.
      assert (Hrest : requests
                        (if Z.of_nat i =? N - 1
                         then [SetStatus nowAssembling] else [])
                      = []) by (destruct (Z.of_nat i =? N - 1); reflexivity).
      rewrite Hrest in Hk. cbn [app] in Hk.
      destruct k as [|k].
      * inversion Hk; subst r. rewrite Nat.add_0_r.
        split; [lia | eexists; reflexivity].
      * cbn [nth_error] in Hk. destruct (IH k Hk) as [Hlt [d' Hr]].
        split; [lia|]. exists d'.
        replace (i + S k)%nat with (S i + k)%nat by lia. exact Hr.
    + cbn [fst requests] in Hk. destruct k as [|k].
      * inversion Hk; subst r. rewrite Nat.add_0_r.
        split; [lia | eexists; reflexivity].
      * destruct k; discriminate.
    + cbn [fst requests] in Hk. destruct k as [|k].
      * inversion Hk; subst r. rewrite Nat.add_0_r.
        split; [lia | eexists; reflexivity].
      * destruct k; discriminate.
Qed.

Lemma sendChunks_first_call clientId chunked f N (rounds : nat) (i : Z)
    (d : string) :
  requests (fst (sendChunks clientId chunked f N (S rounds) i d)) <> [].
Proof.
  cbn [sendChunks]. destruct (chunked i) as [d0|detail|].
  - destruct (sendChunks clientId chunked f N rounds (i + 1)
                (JS.or_else d0 d)) as [rest final].
    cbn. discriminate.
  - cbn. discriminate.
  - cbn. discriminate.
Qed.

(** X2. Whatever the server answers, the calls of a chunked upload are a
    run 0, 1, 2, ... of chunk indices without gap, repeat or retry: at
    least one call and at most [totalChunks]; the call in position [k] goes
    to the chunked endpoint and carries the slice of index [k], the index
    [k], the total count and the file name, and the client identifier is
    attached in position 0 only. *)
Theorem chunk_calls_in_order
    (clientId : string) (whole : Response) (chunked : Z -> Response)
    (c : Component) (f : File) :
  file c = Some f ->
  CHUNK_SIZE < size f ->
  let N := totalChunksOf (size f) CHUNK_SIZE in
  let calls := requests (handleUpload clientId whole chunked c) in
  (1 <= List.length calls <= Z.to_nat N)%nat
  /\ forall k r,
       nth_error calls k = Some r ->
       url r = "/api/v1/documents/upload-chunked"
       /\ form_get "file_chunk" (body r)
          = Some (Slice f (chunkStart CHUNK_SIZE (Z.of_nat k))
                          (chunkEnd (size f) CHUNK_SIZE (Z.of_nat k)))
       /\ form_get "chunk_index" (body r)
          = Some (Text (JS.String_of (Z.of_nat k)))
       /\ form_get "total_chunks" (body r) = Some (Text (JS.String_of N))
       /\ form_get "filename" (body r) = Some (Text (name f))
       /\ form_get "client_id" (body r)
          = (if Nat.eqb k 0 then Some (Text clientId) else None).
Proof.
  intros Hsel Hlarge N calls.
  assert (Hcalls : calls
                   = requests (fst (sendChunks clientId chunked f N
                                      (Z.to_nat N) (Z.of_nat 0) EmptyString)))
    by (apply handleUpload_requests; assumption).
  destruct (large_file_chunks f Hlarge) as [HN Hn]. fold N in HN, Hn.
  split; [split |].
  - rewrite Hcalls. destruct (Z.to_nat N) as [|m] eqn:Em; [lia|].
    pose proof (sendChunks_first_call clientId chunked f N m
                  (Z.of_nat 0) EmptyString) as Hne.
    destruct (requests (fst (sendChunks clientId chunked f N (S m)
                               (Z.of_nat 0) EmptyString)));
      [contradiction | cbn [List.length]; lia].
  - destruct (Nat.le_gt_cases (List.length calls) (Z.to_nat N)) as [Hle|Hgt];
      [exact Hle|].
    destruct (nth_error calls (Z.to_nat N)) as [r|] eqn:Hr.
    + rewrite Hcalls in Hr. apply sendChunks_calls in Hr. lia.
    + apply nth_error_None in Hr. lia.
  - intros k r Hr. rewrite Hcalls in Hr.
    apply sendChunks_calls in Hr. destruct Hr as [_ [d' ->]].
    cbn [Nat.add chunkRequest url body].
    destruct (chunkForm_fields clientId f N (Z.of_nat k) d')
      as (H1 & _ & H3 & H4 & H5 & H6).
    repeat (split; [assumption || reflexivity |]).
    rewrite H6. destruct k; reflexivity.
Qed.

(** The theorem at the upload refused at chunk 1. *)
Lemma chunk_calls_in_order_witness :
  CHUNK_SIZE < size report
  /\ (1 <= List.length
            (requests (handleUpload "client-1" (Resolved None)
                         (refuses 1 (Some "Disk full")) reportSelected))
       <= 3)%nat.
Proof.
  split; [reflexivity |].
  apply (chunk_calls_in_order "client-1" (Resolved None)
           (refuses 1 (Some "Disk full")) reportSelected report);
    reflexivity.
Defined.

(** ** Calls in flight *)

Lemma postedWhileUploading_quiet (s : Lifecycle) (log : list Effect) :
  requests log = [] -> postedWhileUploading s log.
Proof.
  revert s. induction log as [|e log IH]; intros s Hq; [exact I|].
  destruct e; cbn [requests] in Hq; try discriminate;
    cbn [postedWhileUploading]; apply IH; exact Hq.
Qed.

Lemma postedWhileUploading_app (s : Lifecycle) (l1 l2 : list Effect) :
  postedWhileUploading s l1 -> requests l2 = [] ->
  postedWhileUploading s (l1 ++ l2).
Proof.
  revert s. induction l1 as [|e l1 IH]; intros s H1 H2.
  - apply postedWhileUploading_quiet. exact H2.
  - destruct e; cbn [app postedWhileUploading] in *;
      try (apply IH; assumption).
    destruct H1 as [Hs H1]. split; [exact Hs | apply IH; assumption].
Qed.

Lemma sendChunks_posted_while_uploading clientId chunked f N
    (rounds i : nat) (d : string) :
  Z.of_nat i + Z.of_nat rounds = N ->
  postedWhileUploading uploading
    (fst (sendChunks clientId chunked f N rounds (Z.of_nat i) d)).
Proof.
  revert i d. induction rounds as [|n IH]; intros i d HN; [exact I|].
  cbn [sendChunks].
  destruct (chunked (Z.of_nat i)) as [d0|detail|].
  - replace (Z.of_nat i + 1) with (Z.of_nat (S i)) by lia.
    destruct (Z.of_nat i =? N - 1) eqn:E.
    + apply Z.eqb_eq in E. assert (n = 0%nat) by lia. subst n.
      cbn. split; [reflexivity | exact I].
    + specialize (IH (S i) (JS.or_else d0 d) ltac:(lia)).
      destruct (sendChunks clientId chunked f N n (Z.of_nat (S i))
                  (JS.or_else d0 d)) as [rest final].
      cbn [fst app postedWhileUploading chunkUploaded status] in *.
      split; [reflexivity | exact IH].
  - cbn. split; [reflexivity | exact I].
  - cbn. split; [reflexivity | exact I].
Qed.

Lemma handleUpload_posted_while_uploading clientId whole chunked c :
  postedWhileUploading (status (upload c))
                       (handleUpload clientId whole chunked c).
Proof.
  unfold handleUpload. destruct (file c) as [f|]; [|exact I].
  cbn [postedWhileUploading status].
  destruct (size f <=? CHUNK_SIZE) eqn:E.
  - unfold uploadDirectly. cbn [postedWhileUploading].
    split; [reflexivity|]. destruct whole; exact I.
  - apply Z.leb_gt in E. unfold uploadInChunks.
    destruct (large_file_chunks f E) as [HN Hn].
    pose proof (sendChunks_posted_while_uploading clientId chunked f
                  (totalChunksOf (size f) CHUNK_SIZE)
                  (Z.to_nat (totalChunksOf (size f) CHUNK_SIZE)) 0
                  EmptyString ltac:(lia)) as Hloop.
    change (Z.of_nat 0) with 0 in Hloop.
    destruct (sendChunks clientId chunked f _ _ 0 EmptyString)
      as [log final].
    cbn [fst] in Hloop. apply postedWhileUploading_app;
      [exact Hloop | reflexivity].
Qed.

Lemma postedWhileUploading_at (c : Component) (pre post : list Effect)
    (r : Request) :
  postedWhileUploading (status (upload c)) (pre ++ Post r :: post) ->
  status (upload (run c pre)) = uploading.
Proof.
  revert c. induction pre as [|e pre IH]; intros c H.
  - cbn in H. destruct H as [H _]. exact H.
  - change (run c (e :: pre)) with (run (step c e) pre).
    apply IH. destruct e; cbn [app postedWhileUploading] in H;
      try exact H.
    destruct H as [_ H]. exact H.
Qed.

(** X4. Whenever [handleUpload] posts a call, whole-file or chunk, the
    status at that moment is [uploading], so while the call is awaited the
    upload button is disabled and reads ["Uploading..."] (as long as no
    channel event changes the status meanwhile). *)
Theorem calls_posted_while_uploading
    (clientId : string) (whole : Response) (chunked : Z -> Response)
    (c : Component) (pre post : list Effect) (r : Request) :
  handleUpload clientId whole chunked c = (pre ++ Post r :: post)%list ->
  status (upload (run c pre)) = uploading
  /\ uploadDisabled (upload (run c pre)) = true
  /\ uploadLabel (upload (run c pre)) = "Uploading...".
Proof.
  intros Hlog.
  assert (Hs : status (upload (run c pre)) = uploading).
  { apply (postedWhileUploading_at c pre post r). rewrite <- Hlog.
    apply handleUpload_posted_while_uploading. }
  unfold uploadDisabled, uploadLabel. rewrite Hs. repeat split.
Qed.

(** The theorem at the second call of the 12 MiB upload. *)
Lemma calls_posted_while_uploading_witness :
  let log := handleUpload "client-1" (Resolved None) namesOnce
                          reportSelected in
  log = (firstn 3 log
         ++ Post (chunkRequest "client-1" report 3 1 "doc-1")
         :: skipn 4 log)%list
  /\ uploadDisabled (upload (run reportSelected (firstn 3 log))) = true.
Proof.
  split; [reflexivity |].
  apply (calls_posted_while_uploading "client-1" (Resolved None) namesOnce
           reportSelected
           (firstn 3 (handleUpload "client-1" (Resolved None) namesOnce
                                   reportSelected))
           (skipn 4 (handleUpload "client-1" (Resolved None) namesOnce
                                  reportSelected))
           (chunkRequest "client-1" report 3 1 "doc-1")).
  reflexivity.
Defined.

(** ** What an upload leaves alone *)

Lemma run_keepsSelection (log : list Effect) (c : Component) :
  forallb keepsSelection log = true ->
  file (run c log) = file c /\ processingMsg (run c log) = processingMsg c.
Proof.
  revert c. induction log as [|e log IH]; intros c H; [split; reflexivity|].
  cbn [forallb] in H. apply andb_true_iff in H. destruct H as [He H].
  change (run c (e :: log)) with (run (step c e) log).
  destruct (IH (step c e) H) as [-> ->].
  destruct e; try discriminate; split; reflexivity.
Qed.

Lemma sendChunks_keepsSelection clientId chunked f N (rounds : nat) (i : Z)
    (d : string) :
  forallb keepsSelection
          (fst (sendChunks clientId chunked f N rounds i d)) = true.
Proof.
  revert i d. induction rounds as [|n IH]; intros i d; [reflexivity|].
  cbn [sendChunks]. destruct (chunked i) as [d0|detail|];
    [| reflexivity | reflexivity].
  specialize (IH (i + 1) (JS.or_else d0 d)).
  destruct (sendChunks clientId chunked f N n (i + 1) (JS.or_else d0 d))
    as [rest final].
  cbn [fst] in *. rewrite forallb_app, IH.
  destruct (i =? N - 1); reflexivity.
Qed.

(** X5. [handleUpload] never changes the selected file nor the processing
    notice, whatever the file and whatever the server answers. *)
Theorem upload_keeps_selection
    (clientId : string) (whole : Response) (chunked : Z -> Response)
    (c : Component) :
  let c' := run c (handleUpload clientId whole chunked c) in
  file c' = file c /\ processingMsg c' = processingMsg c.
Proof.
  apply run_keepsSelection. unfold handleUpload.
  destruct (file c) as [f|]; [|reflexivity].
  cbn [forallb keepsSelection andb].
  destruct (size f <=? CHUNK_SIZE).
  - unfold uploadDirectly. destruct whole; reflexivity.
  - unfold uploadInChunks.
    pose proof (sendChunks_keepsSelection clientId chunked f
                  (totalChunksOf (size f) CHUNK_SIZE)
                  (Z.to_nat (totalChunksOf (size f) CHUNK_SIZE)) 0
                  EmptyString) as H.
    destruct (sendChunks clientId chunked f _ _ 0 EmptyString)
      as [log final].
    cbn [fst] in H. rewrite forallb_app, H. reflexivity.
Qed.

(** ** The channel handler on any message *)

(** X6. Whatever message arrives on the channel, the handler posts no
    call and leaves the selected file, the stored identifier and the
    progress as they were; it either leaves the status alone or sets it to
    [completed]; and handling the same message a second time changes
    nothing more. *)
Theorem onmessage_touches_status_only (msg : WsMessage) (c : Component) :
  let c' := run c (onmessage msg c) in
  requests (onmessage msg c) = []
  /\ file c' = file c
  /\ uploadedDocId c' = uploadedDocId c
  /\ progress (upload c') = progress (upload c)
  /\ (upload c' = upload c \/ status (upload c') = completed)
  /\ run c' (onmessage msg c') = c'.
Proof.
  destruct msg as [|p]; [cbn; repeat split; left; reflexivity|].
  unfold onmessage. destruct (event p) as [ev|];
    [| cbn; repeat split; left; reflexivity].
  destruct (String.eqb ev "processing_complete");
    [| cbn; repeat split; left; reflexivity].
  cbn. repeat split. right. reflexivity.
Qed.

(** ** A whole-file upload that fails *)

(** X7. When the single call of a whole-file upload is refused, the
    upload ends with status [error] and progress 0; the message is the
    server's detail when it is present and non-empty, and
    ["Upload failed."] otherwise; the stored identifier is untouched and
    the upload button is enabled again. *)
Theorem small_file_upload_refused
    (clientId : string) (whole : Response) (chunked : Z -> Response)
    (c : Component) (f : File) (detail : option string) :
  file c = Some f ->
  size f <= CHUNK_SIZE ->
  whole = Rejected detail ->
  let log := handleUpload clientId whole chunked c in
  List.length (requests log) = 1%nat
  /\ upload (run c log)
     = mkStatus 0 error
         (Some (match detail with
                | Some EmptyString => "Upload failed."
                | Some text => text
                | None => "Upload failed."
                end))
  /\ uploadedDocId (run c log) = uploadedDocId c
  /\ uploadDisabled (upload (run c log)) = false.
Proof.
  intros Hsel Hsmall Hw log. unfold log, handleUpload. rewrite Hsel.
  apply Z.leb_le in Hsmall. rewrite Hsmall. unfold uploadDirectly.
  rewrite Hw. cbn. repeat split.
Qed.

(** The theorem at the 3 MiB file refused with a detail. *)
Lemma small_file_upload_refused_witness :
  size memo <= CHUNK_SIZE
  /\ upload (run memoSelected
              (handleUpload "client-1" (Rejected (Some "Unsupported type"))
                            namesOnce memoSelected))
     = mkStatus 0 error (Some "Unsupported type").
Proof.
  split; [discriminate |].
  apply (small_file_upload_refused "client-1"
           (Rejected (Some "Unsupported type")) namesOnce memoSelected memo
           (Some "Unsupported type")).
  - reflexivity.
  - discriminate.
  - reflexivity.
Defined.

(** When the whole-file call resolves with a body on which [res.data.id]
    throws, the status [completed] has been set when the [catch] sets
    [error]; no identifier is stored. *)
Lemma small_file_answer_unreadable
    (clientId : string) (chunked : Z -> Response) (c : Component)
    (f : File) :
  file c = Some f ->
  size f <= CHUNK_SIZE ->
  let log := handleUpload clientId Unreadable chunked c in
  statuses log
  = [ mkStatus 0 uploading None;
      mkStatus 100 completed (Some "Upload complete!");
      mkStatus 0 error (Some "Upload failed.") ]
  /\ upload (run c log) = mkStatus 0 error (Some "Upload failed.")
  /\ uploadedDocId (run c log) = uploadedDocId c.
Proof.
  intros Hsel Hsmall log. unfold log, handleUpload. rewrite Hsel.
  apply Z.leb_le in Hsmall. rewrite Hsmall. cbn. repeat split.
Qed.

(** ** The progress bar *)

Lemma progress_checked : progressSteadyUpTo 200 = true.
Proof.
  vm_compute. reflexivity.
Qed.

Lemma progressSteadyUpTo_at (bound n i : nat) :
  progressSteadyUpTo bound = true ->
  (2 <= n <= bound)%nat -> (i < n)%nat ->
  progressSteadyAt n i = true.
Proof.
  intros H Hn Hi. unfold progressSteadyUpTo in H.
  rewrite forallb_forall in H.
  specialize (H n ltac:(apply in_seq; lia)).
  rewrite forallb_forall in H. apply H. apply in_seq. lia.
Qed.

(** X8. For an upload of 2 to 200 chunks, the progress reported after
    each acknowledged chunk, as binary64 arithmetic rounds it, lies between
    1 and 100, never decreases from one chunk to the next and is 100 after
    the last chunk; with fewer than 200 chunks it stays below 100 until
    the last chunk. *)
Theorem progress_steady (N i : Z) :
  2 <= N <= 200 ->
  0 <= i < N ->
  1 <= chunkProgress i N <= 100
  /\ (i + 1 < N -> chunkProgress i N <= chunkProgress (i + 1) N)
  /\ (i + 1 = N -> chunkProgress i N = 100)
  /\ (i + 1 < N -> N < 200 -> chunkProgress i N < 100).
Proof.
  intros HN Hi.
  assert (Hbound : (2 <= Z.to_nat N <= 200)%nat) by lia.
  pose proof (progressSteadyUpTo_at 200 (Z.to_nat N) (Z.to_nat i)
                progress_checked Hbound ltac:(lia)) as H.
  unfold progressSteadyAt in H.
  replace (Z.of_nat (S (Z.to_nat i))) with (i + 1) in H by lia.
  rewrite !Z2Nat.id in H by lia.
  apply andb_true_iff in H. destruct H as [H Hnext].
  apply andb_true_iff in H. destruct H as [H Hone].
  apply andb_true_iff in H. destruct H as [Hlo Hhi].
  apply Z.leb_le in Hlo. apply Z.leb_le in Hhi.
  assert (Hpos : 1 <= chunkProgress i N).
  { apply orb_true_iff in Hone. destruct Hone as [Hbig|Hone].
    - apply Nat.ltb_lt in Hbig. lia.
    - apply Z.leb_le in Hone. exact Hone. }
  split; [lia|].
  destruct (S (Z.to_nat i) <? Z.to_nat N)%nat eqn:E.
  - apply Nat.ltb_lt in E. apply andb_true_iff in Hnext.
    destruct Hnext as [Hmono Hbelow]. apply Z.leb_le in Hmono.
    split; [intros _; exact Hmono | split; [lia |]].
    intros _ Hsmall. apply orb_true_iff in Hbelow.
    destruct Hbelow as [Hbig | Hlt].
    + apply Nat.leb_le in Hbig. lia.
    + apply Z.ltb_lt in Hlt. exact Hlt.
  - apply Nat.ltb_ge in E. apply Z.eqb_eq in Hnext.
    split; [lia | split; [intros _; exact Hnext | lia]].
Qed.

(** The theorem at the first chunk of three. *)
Lemma progress_steady_witness :
  chunkProgress 0 3 <= chunkProgress 1 3.
Proof.
  apply (progress_steady 3 0); lia.
Defined.

(** ** The identifier shown after a chunked upload *)

(** X9. After a chunked upload whose calls are all acknowledged, the
    stored identifier is the most recent non-empty identifier the server
    returned, and the line ["Document uploaded! ID: ..."] shows it; when
    no answer carried an identifier the empty string is stored and no line
    is shown. *)
Theorem uploaded_line_after_chunks
    (clientId : string) (whole : Response) (chunked : Z -> Response)
    (c : Component) (f : File) :
  file c = Some f ->
  CHUNK_SIZE < size f ->
  let n := Z.to_nat (totalChunksOf (size f) CHUNK_SIZE) in
  (forall j, (j < n)%nat -> acknowledgedAt chunked j) ->
  let c' := run c (handleUpload clientId whole chunked c) in
  uploadedDocId c'
  = Some (match latestIdentifier chunked n with
          | Some id => id
          | None => EmptyString
          end)
  /\ uploadedLine c'
     = match latestIdentifier chunked n with
       | Some id => Some ("Document uploaded! ID: " ++ id)
       | None => None
       end.
Proof.
  intros Hsel Hlarge n Hall c'.
  assert (Hid : uploadedDocId c' = Some (documentIdAt chunked n)).
  { unfold c'.
    rewrite (handleUpload_acknowledged clientId whole chunked c f
               Hsel Hlarge Hall).
    fold n.
    change (SetStatus (mkStatus 0 uploading None) :: ?l)
      with ([SetStatus (mkStatus 0 uploading None)] ++ l)%list.
    rewrite !run_app. reflexivity. }
  unfold uploadedLine. rewrite Hid, documentIdAt_latest.
  destruct (latestIdentifier chunked n) as [id|] eqn:Hl.
  - destruct (latestIdentifier_supplied chunked n id Hl) as [Hne _].
    split; [reflexivity|]. destruct id; [contradiction | reflexivity].
  - split; reflexivity.
Qed.

(** The theorem at the server that names the document twice. *)
Lemma uploaded_line_after_chunks_witness :
  uploadedLine (run reportSelected
                  (handleUpload "client-1" (Resolved None) renames
                                reportSelected))
  = Some "Document uploaded! ID: doc-2".
Proof.
  apply (uploaded_line_after_chunks "client-1" (Resolved None) renames
           reportSelected report).
  - reflexivity.
  - reflexivity.
  - intros j Hj. unfold acknowledgedAt, renames.
    destruct (Z.of_nat j =? 0); [eexists; reflexivity|].
    destruct (Z.of_nat j =? 1); eexists; reflexivity.
Defined.

(** ** A refused chunk, in general *)

(** [refused_chunk_in_general] at the upload refused at chunk 1. *)
Lemma refused_chunk_in_general_witness :
  upload (run reportSelected
            (handleUpload "client-1" (Resolved None)
                          (refuses 1 (Some "Disk full")) reportSelected))
  = mkStatus 100 completed (Some "Upload complete!").
Proof.
  apply (refused_chunk_in_general "client-1" (Resolved None)
           (refuses 1 (Some "Disk full")) reportSelected report 1
           (Some "Disk full")).
  - reflexivity.
  - reflexivity.
  - vm_compute. lia.
  - intros j Hj. exists (Some "doc-1"). destruct j; [reflexivity | lia].
  - reflexivity.
Defined.

(** ** How an upload ends, and how the next one starts *)

(** X10. A chunked upload always ends with the status [completed],
    progress 100 and the message ["Upload complete!"], whether its calls
    were acknowledged or one was refused: the two statements after the loop
    run in every case, so the status at the end is never [error] nor
    [assembling], and the upload button is enabled again. *)
Theorem chunked_upload_ends_completed
    (clientId : string) (whole : Response) (chunked : Z -> Response)
    (c : Component) (f : File) :
  file c = Some f ->
  CHUNK_SIZE < size f ->
  let c' := run c (handleUpload clientId whole chunked c) in
  upload c' = mkStatus 100 completed (Some "Upload complete!")
  /\ uploadDisabled (upload c') = false
  /\ uploadLabel (upload c') = "Upload"
  /\ exists d, uploadedDocId c' = Some d.
Proof.
  intros Hsel Hlarge c'. unfold c', handleUpload. rewrite Hsel.
  destruct (size f <=? CHUNK_SIZE) eqn:E; [apply Z.leb_le in E; lia|].
  unfold uploadInChunks.
  destruct (sendChunks clientId chunked f _ _ 0 EmptyString) as [log final].
  change (SetStatus (mkStatus 0 uploading None) :: ?l)
    with ([SetStatus (mkStatus 0 uploading None)] ++ l)%list.
  rewrite !run_app. cbn. repeat split. exists final. reflexivity.
Qed.

(** The theorem at the upload refused at chunk 1. *)
Lemma chunked_upload_ends_completed_witness :
  CHUNK_SIZE < size report
  /\ uploadLabel (upload (run reportSelected
                     (handleUpload "client-1" (Resolved None)
                        (refuses 1 (Some "Disk full")) reportSelected)))
     = "Upload".
Proof.
  split; [reflexivity |].
  apply (chunked_upload_ends_completed "client-1" (Resolved None)
           (refuses 1 (Some "Disk full")) reportSelected report);
    reflexivity.
Defined.

(** X11. Selecting files, whatever the component was showing, takes the
    first file of the list, resets the status to [idle] with progress 0
    and no message, clears the stored identifier and keeps the processing
    notice; the upload button is then enabled, and an upload started next
    posts at least one call. *)
Theorem selecting_resets
    (clientId : string) (whole : Response) (chunked : Z -> Response)
    (c : Component) (f : File) (others : list File) :
  let c' := run c (handleFileChange (f :: others)) in
  file c' = Some f
  /\ upload c' = mkStatus 0 idle None
  /\ uploadedDocId c' = None
  /\ processingMsg c' = processingMsg c
  /\ uploadDisabled (upload c') = false
  /\ requests (handleUpload clientId whole chunked c') <> [].
Proof.
  cbv zeta.
  change (run c (handleFileChange (f :: others)))
    with (mkComponent (Some f) (mkStatus 0 idle None) None
                      (processingMsg c)).
  cbn [file upload uploadedDocId processingMsg]. repeat split.
  unfold handleUpload. cbn [file requests].
  destruct (size f <=? CHUNK_SIZE) eqn:E.
  - unfold uploadDirectly. cbn [requests]. discriminate.
  - apply Z.leb_gt in E. unfold uploadInChunks.
    destruct (large_file_chunks f E) as [HN Hn].
    destruct (Z.to_nat (totalChunksOf (size f) CHUNK_SIZE)) as [|m];
      [lia|].
    pose proof (sendChunks_first_call clientId chunked f
                  (totalChunksOf (size f) CHUNK_SIZE) m 0 EmptyString)
      as Hfirst.
    destruct (sendChunks clientId chunked f _ (S m) 0 EmptyString)
      as [log final].
    cbn [fst requests] in *. rewrite requests_app. intros Hnone.
    apply app_eq_nil in Hnone. destruct Hnone as [Hnone _].
    contradiction.
Qed.
